(** * Product-research tracker (src/App.jsx): sync and derived-metrics core

    A shallow embedding of the logic of [App.jsx]: the two metric helpers
    ([formatCurrency], [calculateRoas]), the snapshot callback of the
    realtime subscription (projection, ordering, one-shot migration of the
    local cache), the mutation handlers and the search filter.

    JavaScript numbers are IEEE-754 binary64 values, modelled by Rocq's
    primitive [float]; objects are finite maps from property names to
    values; arrays are lists.  A handler is a function from the component
    state to a [result]: the state it leaves, the calls it made to the
    document store, and whether it ended by an exception. *)

From Stdlib Require Import ZArith Floats Ascii String List Sorted.
From stdpp Require Import gmap strings list fin_maps pretty.

Local Open Scope string_scope.

(** ** JavaScript values *)

#[warnings="-register-all"]
Inductive value : Type :=
| VUndefined
| VNull
| VBool (b : bool)
| VNum (x : float)
| VStr (s : string)
| VArr (l : list value)
| VObj (o : gmap string value).

(** An object: own enumerable properties by name. *)
Abbreviation obj := (gmap string value).

(** ToBoolean: [undefined], [null], [false], [0], [-0], [NaN] and the
    empty string are falsy; everything else, arrays and objects
    included, is truthy. *)
Definition truthy (v : value) : bool :=
  match v with
  | VUndefined | VNull => false
  | VBool b => b
  | VNum x => negb (is_zero x || is_nan x)
  | VStr s => negb (String.eqb s "")
  | VArr _ | VObj _ => true
  end.

(** [a || b] *)
Definition js_or (a b : value) : value := if truthy a then a else b.

(** [o.k] on an object: a missing property reads as [undefined].  The
    names this program reads ([id], [name], [status], [createdAt],
    [competitors], [otherLinks]) are not defined on [Object.prototype]. *)
Definition prop (o : obj) (k : string) : value := default VUndefined (o !! k).

(** [v.k] on any value: reading a property of [undefined] or [null]
    throws (None); the names read by this program are absent from the
    prototypes of the other kinds, so they read as [undefined] there. *)
Definition get (v : value) (k : string) : option value :=
  match v with
  | VUndefined | VNull => None
  | VObj o => Some (prop o k)
  | _ => Some VUndefined
  end.

(** [v === s] for a string [s]. *)
Definition is_string (s : string) (v : value) : bool :=
  match v with
  | VStr t => String.eqb t s
  | _ => false
  end.

(** The characters of a string, one string per character. *)
Fixpoint chars (s : string) : list value :=
  match s with
  | EmptyString => []
  | String c s' => VStr (String c EmptyString) :: chars s'
  end.

(** Own properties of an array-like: index [i] under the name of [i]. *)
Definition indexed (l : list value) : obj :=
  list_to_map (imap (fun i x => (pretty i, x)) l).

(** [{...v}]: the own enumerable properties of [v]; none for
    [undefined], [null], booleans and numbers. *)
Definition object_spread (v : value) : obj :=
  match v with
  | VObj o => o
  | VArr l => indexed l
  | VStr s => indexed (chars s)
  | _ => ∅
  end.

(** [[...v]]: arrays and strings are iterable; anything else throws. *)
Definition array_spread (v : value) : option (list value) :=
  match v with
  | VArr l => Some l
  | VStr s => Some (chars s)
  | _ => None
  end.

(** [a[i]]: [undefined] out of range. *)
Definition array_get (a : list value) (i : nat) : value :=
  default VUndefined (a !! i).

(** [a[i] = x]: in range, element [i] is replaced; past the end the
    array grows, the skipped slots reading as [undefined]. *)
Definition array_set (a : list value) (i : nat) (x : value) : list value :=
  if decide (i < length a)%nat then <[i := x]> a
  else (a ++ replicate (i - length a) VUndefined ++ [x])%list.

(** A method of [Array.prototype] ([filter], [map], [forEach]) called on
    [v]: defined on arrays only, a TypeError on anything else. *)
Definition as_array (v : value) : option (list value) :=
  match v with
  | VArr l => Some l
  | _ => None
  end.

(** [a.filter(f)] where the callback may throw. *)
Fixpoint filterM {A} (f : A -> option bool) (l : list A) : option (list A) :=
  match l with
  | [] => Some []
  | x :: l' =>
    match f x with
    | None => None
    | Some b =>
      match filterM f l' with
      | None => None
      | Some r => Some (if b then x :: r else r)
      end
    end
  end.

(** [a.map(f)] where the callback may throw. *)
Fixpoint mapM' {A B} (f : A -> option B) (l : list A) : option (list B) :=
  match l with
  | [] => Some []
  | x :: l' =>
    match f x with
    | None => None
    | Some y =>
      match mapM' f l' with
      | None => None
      | Some r => Some (y :: r)
      end
    end
  end.

(** ** Strings: [toLowerCase] and [includes] *)

(** [toLowerCase] on the ASCII letters; other code units are kept. *)
Definition lower_ascii (c : ascii) : ascii :=
  let n := nat_of_ascii c in
  if (65 <=? n)%nat && (n <=? 90)%nat then ascii_of_nat (n + 32) else c.

Fixpoint toLowerCase (s : string) : string :=
  match s with
  | EmptyString => EmptyString
  | String c s' => String (lower_ascii c) (toLowerCase s')
  end.

(** [s.startsWith(t)] *)
Fixpoint startsWith (s t : string) {struct t} : bool :=
  match t with
  | EmptyString => true
  | String c t' =>
    match s with
    | EmptyString => false
    | String d s' => Ascii.eqb c d && startsWith s' t'
    end
  end.

(** [s.includes(t)]: [t] occurs in [s] as a contiguous substring. *)
Fixpoint includes (s t : string) : bool :=
  startsWith s t ||
  match s with
  | EmptyString => false
  | String _ s' => includes s' t
  end.

(** ** Numbers: numeric literals *)

(** The binary64 value nearest to [m * 10^e] (ties to even), negated
    when [neg]; a zero mantissa keeps the sign. *)
Definition decimal_to_SF (neg : bool) (m e : Z) : spec_float :=
  match m with
  | Zpos p =>
    match e with
    | Zneg k =>
      SFdiv prec emax (S754_finite neg p 0) (S754_finite false (10 ^ k)%positive 0)
    | _ => binary_normalize prec emax (cond_Zopp neg (Zpos p * 10 ^ e)) 0 false
    end
  | _ => S754_zero neg
  end.

Definition decimal_to_float (neg : bool) (m e : Z) : float :=
  SF2Prim (decimal_to_SF neg m e).

(** The value of a digit character in bases up to sixteen. *)
Definition digit_val (c : ascii) : option Z :=
  let n := nat_of_ascii c in
  if (48 <=? n)%nat && (n <=? 57)%nat then Some (Z.of_nat n - 48)%Z
  else if (97 <=? n)%nat && (n <=? 102)%nat then Some (Z.of_nat n - 87)%Z
  else if (65 <=? n)%nat && (n <=? 70)%nat then Some (Z.of_nat n - 55)%Z
  else None.

(** The longest run of base-[b] digits at the head of [s]: the number
    accumulated onto [acc], the count added to [n], and the rest. *)
Fixpoint read_digits (b : Z) (s : string) (acc n : Z) : Z * Z * string :=
  match s with
  | String c s' =>
    match digit_val c with
    | Some d =>
      if (d <? b)%Z then read_digits b s' (b * acc + d)%Z (n + 1)%Z
      else (acc, n, s)
    | None => (acc, n, s)
    end
  | EmptyString => (acc, n, s)
  end.

(** White space of the ASCII range (TAB, LF, VT, FF, CR, SP). *)
Definition is_space (c : ascii) : bool :=
  let n := nat_of_ascii c in ((9 <=? n)%nat && (n <=? 13)%nat) || (n =? 32)%nat.

Fixpoint skip_spaces (s : string) : string :=
  match s with
  | String c s' => if is_space c then skip_spaces s' else s
  | EmptyString => s
  end.

Definition read_sign (s : string) : bool * string :=
  match s with
  | String "-" s' => (true, s')
  | String "+" s' => (false, s')
  | _ => (false, s)
  end.

(** The exponent part at the head of [s]; it is read only when a digit
    follows the [e] and the optional sign. *)
Definition read_exponent (s : string) : Z * string :=
  match s with
  | String c s' =>
    if Ascii.eqb c "e" || Ascii.eqb c "E" then
      let '(neg, s'') := read_sign s' in
      let '(x, n, rest) := read_digits 10 s'' 0%Z 0%Z in
      if (0 <? n)%Z then (cond_Zopp neg x, rest) else (0%Z, s)
    else (0%Z, s)
  | EmptyString => (0%Z, s)
  end.

(** An unsigned decimal literal at the head of [s] (digits, an optional
    fraction, an optional exponent; at least one digit): its mantissa,
    its decimal exponent and the rest of the string. *)
Definition read_decimal (s : string) : option (Z * Z * string) :=
  let '(i, ni, s1) := read_digits 10 s 0%Z 0%Z in
  let '(m, nf, s2) :=
    match s1 with
    | String "." s1' =>
      let '(m, nf, s2) := read_digits 10 s1' i 0%Z in
      if (0 <? ni + nf)%Z then (m, nf, s2) else (i, 0%Z, s1)
    | _ => (i, 0%Z, s1)
    end in
  if (0 <? ni + nf)%Z then
    let '(x, s3) := read_exponent s2 in Some (m, (x - nf)%Z, s3)
  else None.

(** [parseFloat] on a string: leading white space is skipped, then the
    longest prefix that is [Infinity] or a decimal literal, with an
    optional sign, is converted; [NaN] when there is none. *)
Definition parseFloat_string (s : string) : float :=
  let '(neg, s1) := read_sign (skip_spaces s) in
  if startsWith s1 "Infinity" then (if neg then neg_infinity else infinity)
  else
    match read_decimal s1 with
    | Some (m, e, _) => decimal_to_float neg m e
    | None => nan
    end.

(** A mathematical value: what a numeric string or a number denotes
    before any rounding. [MDec] is [m * 10^e], [MBin] is [m * 2^e]. *)
Inductive mathval : Type :=
| MNaN
| MInf (neg : bool)
| MDec (neg : bool) (m e : Z)
| MBin (neg : bool) (m : positive) (e : Z).

(** A whole string read as a numeric literal (white space around it is
    ignored): empty is zero; [0x], [0o] and [0b] integers take no sign;
    otherwise a signed [Infinity] or decimal literal; anything else is
    not a number. *)
Definition radix_literal (b : Z) (s : string) : mathval :=
  let '(x, n, rest) := read_digits b s 0%Z 0%Z in
  if (0 <? n)%Z && String.eqb (skip_spaces rest) "" then MDec false x 0 else MNaN.

Definition string_to_mathval (s : string) : mathval :=
  match skip_spaces s with
  | EmptyString => MDec false 0 0
  | String "0" (String "x" s') | String "0" (String "X" s') => radix_literal 16 s'
  | String "0" (String "o" s') | String "0" (String "O" s') => radix_literal 8 s'
  | String "0" (String "b" s') | String "0" (String "B" s') => radix_literal 2 s'
  | s0 =>
    let '(neg, s1) := read_sign s0 in
    if startsWith s1 "Infinity" then
      (if String.eqb (skip_spaces (substring 8 (String.length s1) s1)) "" then MInf neg else MNaN)
    else
      match read_decimal s1 with
      | Some (m, e, rest) => if String.eqb (skip_spaces rest) "" then MDec neg m e else MNaN
      | None => MNaN
      end
  end.

Definition number_to_mathval (x : float) : mathval :=
  match Prim2SF x with
  | S754_nan => MNaN
  | S754_infinity s => MInf s
  | S754_zero s => MDec s 0 0
  | S754_finite s m e => MBin s m e
  end.

(** The Number value for a mathematical value. *)
Definition mathval_to_float (v : mathval) : float :=
  match v with
  | MNaN => nan
  | MInf s => if s then neg_infinity else infinity
  | MDec s m e => decimal_to_float s m e
  | MBin s m e => SF2Prim (S754_finite s m e)
  end.

(** ** Numbers: fixed-point output *)

(** [|x| * 10^f] for the finite [x = m * 2^e], rounded to the nearest
    integer, a tie going to the larger one. *)
Definition scaled_round (m : positive) (e : Z) (f : nat) : Z :=
  let num := (Zpos m * 10 ^ Z.of_nat f)%Z in
  match e with
  | Zneg p => ((2 * num + Zpos (2 ^ p)) / (2 * Zpos (2 ^ p)))%Z
  | _ => (num * 2 ^ e)%Z
  end.

(** The same for [m * 10^e]. *)
Definition scaled_round_dec (m e : Z) (f : nat) : Z :=
  match (e + Z.of_nat f)%Z with
  | Zneg p => ((2 * m + Zpos (10 ^ p)) / (2 * Zpos (10 ^ p)))%Z
  | k => (m * 10 ^ k)%Z
  end.

(** [10^21 <= m * 2^e] *)
Definition ge_1e21 (m : positive) (e : Z) : bool :=
  match e with
  | Zneg p => (10 ^ 21 * Zpos (2 ^ p) <=? Zpos m)%Z
  | _ => (10 ^ 21 <=? Zpos m * 2 ^ e)%Z
  end.

Fixpoint zeros (n : nat) : string :=
  match n with
  | O => ""
  | S n' => String "0" (zeros n')
  end.

(** The decimal digits of [n] with a point before the last [f] of
    them, zero-padded on the left so that a digit precedes the point. *)
Definition fixed_digits (n : Z) (f : nat) : string :=
  let d := pretty (Z.to_N n) in
  let d := zeros (S f - String.length d) ++ d in
  let k := (String.length d - f)%nat in
  if decide (f = 0)%nat then d
  else substring 0 k d ++ "." ++ substring k f d.

(** Digits in groups of three, separated by commas. *)
Fixpoint group3 (s : string) : string :=
  match s with
  | EmptyString => EmptyString
  | String c s' =>
    let k := String.length s' in
    String c ((if decide (k mod 3 = 0 ∧ k ≠ 0)%nat then "," else "") ++ group3 s')
  end.

(** ** The platform

    What the program calls and this development leaves abstract: the
    shortest round-trip printing of numbers, the JSON decoder, and the
    document store's client library. *)
Class Platform := {
  (** [Number::toString]: the shortest decimal that reads back. *)
  Number_toString : float -> string;
  (** [JSON.parse]; [None] is a SyntaxError. *)
  JSON_parse : string -> option value;
  (** [doc(db, "artifacts", appId, "users", uid, "products", id)]: the
      document reference for user [uid] and key [id]; [None] when the
      library rejects the path by throwing. *)
  doc : string -> value -> option string;
  (** Whether [setDoc] accepts a payload; it throws at once otherwise. *)
  data_ok : value -> bool;
  (** The document left by a merge-write of a payload into a document. *)
  merge_doc : value -> value -> value;
}.

Section Metrics.
Context `{Platform}.

(** ToString. In [Array.prototype.join], [undefined] and [null]
    elements print as the empty string. *)
Fixpoint to_string (v : value) : string :=
  match v with
  | VUndefined => "undefined"
  | VNull => "null"
  | VBool b => if b then "true" else "false"
  | VNum x => Number_toString x
  | VStr s => s
  | VArr l =>
    (fix join (l : list value) : string :=
       match l with
       | [] => ""
       | x :: l' =>
         match x with VUndefined | VNull => "" | _ => to_string x end ++
         match l' with [] => "" | _ => "," ++ join l' end
       end) l
  | VObj _ => "[object Object]"
  end.

(** The mathematical value of [v] after ToPrimitive. *)
Definition to_mathval (v : value) : mathval :=
  match v with
  | VUndefined => MNaN
  | VNull => MDec false 0 0
  | VBool b => MDec false (if b then 1 else 0) 0
  | VNum x => number_to_mathval x
  | VStr s => string_to_mathval s
  | VArr _ | VObj _ => string_to_mathval (to_string v)
  end.

(** ToNumber *)
Definition to_number (v : value) : float :=
  match v with
  | VNum x => x
  | _ => mathval_to_float (to_mathval v)
  end.

(** [a - b] *)
Definition js_sub (a b : value) : float := (to_number a - to_number b)%float.

(** [parseFloat(v)] *)
Definition parseFloat (v : value) : float := parseFloat_string (to_string v).

(** [x.toFixed(f)] *)
Definition toFixed (x : float) (f : nat) : string :=
  match Prim2SF x with
  | S754_nan => "NaN"
  | S754_infinity s => if s then "-Infinity" else "Infinity"
  | S754_zero _ => fixed_digits 0 f
  | S754_finite s m e =>
    (if s then "-" else "") ++
    (if ge_1e21 m e then Number_toString (abs x)
     else fixed_digits (scaled_round m e f) f)
  end.

(** [new Intl.NumberFormat("en-US", {style: "currency", currency: "USD"})
    .format(v)]: the exact value rounded to cents, ties away from zero;
    the sign first, then the dollar sign, the grouped integer part and
    two decimals. *)
Definition usd (neg : bool) (cents : Z) : string :=
  let d := fixed_digits cents 2 in
  let k := (String.length d - 3)%nat in
  (if neg then "-" else "") ++ "$" ++ group3 (substring 0 k d) ++ substring k 3 d.

Definition Intl_USD_format (v : value) : string :=
  match to_mathval v with
  | MNaN => "$NaN"
  | MInf s => (if s then "-" else "") ++ "$∞"
  | MDec s m e => usd s (scaled_round_dec m e 2)
  | MBin s m e => usd s (scaled_round m e 2)
  end.

(** ** Metrics (App.jsx, helper functions) *)

Definition formatCurrency (val : value) : string :=
  if negb (truthy val) then "-"
  else Intl_USD_format val.

(** What [calculateRoas] returns: [null], the number [0], or the string
    made by [toFixed]. *)
Inductive roas : Type :=
| RoasNull
| RoasZero
| RoasFixed (s : string).

Definition calculateRoas (price cogs : value) : roas :=
  let p := parseFloat price in
  let c := parseFloat cogs in
  if is_nan p || is_nan c then RoasNull
  else
    let margin := (p - c)%float in
    if (margin <=? 0)%float then RoasZero
    else RoasFixed (toFixed (p / margin)%float 2).

End Metrics.

(** ** The component: state, store calls, results *)

Definition appId : string := "dropship-tracker-app".
Definition LOCAL_STORAGE_KEY : string := "dropship_tracker_v1".

(** The state hooks of [App] and the browser's local storage. [user] is
    the uid of the signed-in user; [products] is only ever set by the
    snapshot callback, which builds object literals. *)
Record state : Type := mkState {
  user : option string;
  products : list obj;
  selectedId : option string;
  searchQuery : string;
  loading : bool;
  localStorage : gmap string string;
}.

Definition setProducts (items : list obj) (st : state) : state :=
  mkState (user st) items (selectedId st) (searchQuery st) (loading st) (localStorage st).

Definition setLoading (b : bool) (st : state) : state :=
  mkState (user st) (products st) (selectedId st) (searchQuery st) b (localStorage st).

Definition setSelectedId (i : option string) (st : state) : state :=
  mkState (user st) (products st) i (searchQuery st) (loading st) (localStorage st).

Definition removeItem (k : string) (st : state) : state :=
  mkState (user st) (products st) (selectedId st) (searchQuery st) (loading st)
          (delete k (localStorage st)).

(** A call handed to the document store: [setDoc(ref, data)] or
    [setDoc(ref, data, {merge: true})], and [deleteDoc(ref)]. *)
Inductive call : Type :=
| SetDoc (ref : string) (data : value) (merge : bool)
| DeleteDoc (ref : string).

(** How a handler ends: the state it leaves, the store calls it made,
    in order, and whether it ended by an uncaught exception. *)
Record result : Type := mkResult {
  final : state;
  calls : list call;
  threw : bool;
}.

Definition done (st : state) (cs : list call) : result := mkResult st cs false.
Definition throw (st : state) (cs : list call) : result := mkResult st cs true.

(** [Array.prototype.sort] with a comparator whose result is a number:
    a stable sort, written as a stable insertion sort; [x] goes after
    [y] exactly when [cmp x y > 0].  Whenever the comparator is
    consistent, every conforming [sort] returns this list. *)
Fixpoint sort_insert {A} (cmp : A -> A -> float) (x : A) (l : list A) : list A :=
  match l with
  | [] => [x]
  | y :: l' => if (0 <? cmp x y)%float then y :: sort_insert cmp x l' else x :: l
  end.

Definition sort {A} (cmp : A -> A -> float) (l : list A) : list A :=
  foldr (sort_insert cmp) [] l.

Section App.
Context `{Platform}.

(** The document store: documents by reference. A plain [setDoc]
    creates or overwrites; a merge-write merges into the document when
    there is one; [deleteDoc] removes. *)
Definition apply_call (c : call) (remote : gmap string value) : gmap string value :=
  match c with
  | SetDoc ref data false => <[ref := data]> remote
  | SetDoc ref data true =>
    match remote !! ref with
    | Some old => <[ref := merge_doc old data]> remote
    | None => <[ref := data]> remote
    end
  | DeleteDoc ref => delete ref remote
  end.

(** The store after the calls of a handler, each paired with whether
    the store carried it out. *)
Fixpoint deliver (cs : list (call * bool)) (remote : gmap string value) : gmap string value :=
  match cs with
  | [] => remote
  | (c, ok) :: cs' => deliver cs' (if ok then apply_call c remote else remote)
  end.

(** *** Snapshot callback (App.jsx, effect 2) *)

(** [{ ...doc.data(), id: doc.id }] *)
Definition project_doc (d : string * obj) : obj := <["id" := VStr d.1]> d.2.

(** [(a, b) => (b.createdAt || 0) - (a.createdAt || 0)] *)
Definition createdAt_or_0 (a : obj) : value := js_or (prop a "createdAt") (VNum 0).

Definition byCreatedAt (a b : obj) : float :=
  js_sub (createdAt_or_0 b) (createdAt_or_0 a).

(** The items built from a snapshot, in the order they are stored. *)
Definition project (snapshot : list (string * obj)) : list obj :=
  sort byCreatedAt (map project_doc snapshot).

(** [localData.forEach((prod) => setDoc(doc(..., prod.id), prod))]: the
    calls made, and whether the loop was cut short by an exception. *)
Fixpoint migrate (uid : string) (localData : list value) : list call * bool :=
  match localData with
  | [] => ([], false)
  | prod :: rest =>
    match get prod "id" with
    | None => ([], true)
    | Some id =>
      match doc uid id with
      | None => ([], true)
      | Some ref =>
        if data_ok prod then
          let '(cs, t) := migrate uid rest in (SetDoc ref prod false :: cs, t)
        else ([], true)
      end
    end
  end.

(** The callback of [onSnapshot] for the signed-in user [uid]. *)
Definition onSnapshot (uid : string) (snapshot : list (string * obj)) (st : state) : result :=
  let items := project snapshot in
  let st := setLoading false (setProducts items st) in
  if decide (length items = 0)%nat then
    match localStorage st !! LOCAL_STORAGE_KEY with
    | Some savedLocal =>
      if truthy (VStr savedLocal) then
        match JSON_parse savedLocal with
        | None => throw st []
        | Some localData =>
          match as_array localData with
          | None => throw st []
          | Some records =>
            let '(cs, t) := migrate uid records in
            if t then throw st cs
            else done (removeItem LOCAL_STORAGE_KEY st) cs
          end
        end
      else done st []
    | None => done st []
    end
  else done st [].

(** *** Mutation handlers *)

Definition handleUpdateProduct (id field : string) (v : value) (st : state) : result :=
  match user st with
  | None => done st []
  | Some uid =>
    match doc uid (VStr id) with
    | None => throw st []
    | Some productRef =>
      let payload := VObj {[ field := v ]} in
      if data_ok payload then done st [SetDoc productRef payload true]
      else done st []
    end
  end.

(** [products.find((p) => p.id === productId)] *)
Definition find_product (productId : string) (st : state) : option obj :=
  List.find (fun p => is_string productId (prop p "id")) (products st).

(** A handler that does not await [handleUpdateProduct]: the calls are
    made, a rejection of the inner promise is not its own. *)
Definition fire (r : result) : result := done (final r) (calls r).

(** [newCompetitors[compIndex] = { ...newCompetitors[compIndex], [field]: value }] *)
Definition set_competitor_field (newCompetitors : list value) (compIndex : nat)
    (field : string) (v : value) : list value :=
  array_set newCompetitors compIndex
    (VObj (<[field := v]> (object_spread (array_get newCompetitors compIndex)))).

Definition handleUpdateCompetitor (productId : string) (compIndex : nat)
    (field : string) (v : value) (st : state) : result :=
  match user st with
  | None => done st []
  | Some _ =>
    match find_product productId st with
    | None => done st []
    | Some product =>
      match array_spread (prop product "competitors") with
      | None => throw st []
      | Some newCompetitors =>
        let newCompetitors := set_competitor_field newCompetitors compIndex field v in
        fire (handleUpdateProduct productId "competitors" (VArr newCompetitors) st)
      end
    end
  end.

(** [generateId()] is random; the id it returns is an argument here. *)
Definition handleAddOtherLink (productId : string) (newId : string) (st : state) : result :=
  match user st with
  | None => done st []
  | Some _ =>
    match find_product productId st with
    | None => done st []
    | Some product =>
      match array_spread (js_or (prop product "otherLinks") (VArr [])) with
      | None => throw st []
      | Some links =>
        let newLinks :=
          (links ++ [VObj (<["url" := VStr ""]> (<["title" := VStr ""]> {[ "id" := VStr newId ]}))])%list in
        fire (handleUpdateProduct productId "otherLinks" (VArr newLinks) st)
      end
    end
  end.

(** [(link) => link.id === linkId ? { ...link, [field]: value } : link] *)
Definition update_link (linkId field : string) (v : value) (link : value) : option value :=
  match get link "id" with
  | None => None
  | Some i =>
    Some (if is_string linkId i then VObj (<[field := v]> (object_spread link)) else link)
  end.

Definition handleUpdateOtherLink (productId linkId field : string) (v : value)
    (st : state) : result :=
  match user st with
  | None => done st []
  | Some _ =>
    match find_product productId st with
    | None => done st []
    | Some product =>
      match as_array (js_or (prop product "otherLinks") (VArr [])) with
      | None => throw st []
      | Some links =>
        match mapM' (update_link linkId field v) links with
        | None => throw st []
        | Some newLinks =>
          fire (handleUpdateProduct productId "otherLinks" (VArr newLinks) st)
        end
      end
    end
  end.

(** [(link) => link.id !== linkId] *)
Definition keep_link (linkId : string) (link : value) : option bool :=
  match get link "id" with
  | None => None
  | Some i => Some (negb (is_string linkId i))
  end.

Definition handleDeleteOtherLink (productId linkId : string) (st : state) : result :=
  match user st with
  | None => done st []
  | Some _ =>
    match find_product productId st with
    | None => done st []
    | Some product =>
      match as_array (js_or (prop product "otherLinks") (VArr [])) with
      | None => throw st []
      | Some links =>
        match filterM (keep_link linkId) links with
        | None => throw st []
        | Some newLinks =>
          fire (handleUpdateProduct productId "otherLinks" (VArr newLinks) st)
        end
      end
    end
  end.

(** [deleted] tells whether the promise of [deleteDoc] is fulfilled; a
    rejection, like an exception of [doc], is caught and logged. *)
Definition handleDeleteProduct (id : string) (deleted : bool) (st : state) : result :=
  match user st with
  | None => done st []
  | Some uid =>
    match doc uid (VStr id) with
    | None => done st []
    | Some ref =>
      if deleted then done (setSelectedId None st) [DeleteDoc ref]
      else done st [DeleteDoc ref]
    end
  end.

(** *** Filter *)

(** [p.name.toLowerCase().includes(q) || p.status.toLowerCase().includes(q)];
    calling [toLowerCase] on anything but a string throws. *)
Definition matches (query : string) (p : obj) : option bool :=
  match prop p "name" with
  | VStr name =>
    if includes (toLowerCase name) (toLowerCase query) then Some true
    else
      match prop p "status" with
      | VStr status => Some (includes (toLowerCase status) (toLowerCase query))
      | _ => None
      end
  | _ => None
  end.

Definition filteredProducts (st : state) : option (list obj) :=
  filterM (matches (searchQuery st)) (products st).

End App.

(** ** Reference notions used by the statements *)

(** [t] occurs in [s]: some text before it, some text after it. *)
Definition occurs_in (t s : string) : Prop := exists a b, s = a ++ t ++ b.

(** The filter as the specification words it: the name or the status,
    lower-cased, contains the lower-cased query. *)
Definition name_or_status_matches (query : string) (p : obj) : bool :=
  match prop p "name", prop p "status" with
  | VStr name, VStr status =>
    includes (toLowerCase name) (toLowerCase query) ||
    includes (toLowerCase status) (toLowerCase query)
  | _, _ => false
  end.

(** A product as the application stores it: [name] and [status] are
    strings. *)
Definition well_formed_product (p : obj) : Prop :=
  exists name status, prop p "name" = VStr name /\ prop p "status" = VStr status.

(** The links of a product: [product.otherLinks || []] when that is an
    array. *)
Definition links_of (product : obj) : option (list value) :=
  as_array (js_or (prop product "otherLinks") (VArr [])).

(** [link.id === linkId], false when [link] has no readable [id]. *)
Definition has_link_id (linkId : string) (link : value) : bool :=
  match get link "id" with
  | Some i => is_string linkId i
  | None => false
  end.

(** The writes of a migration: one plain [setDoc] per cached record. *)
Definition migration_writes (refs : list string) (records : list value) : list call :=
  zip_with (fun ref prod => SetDoc ref prod false) refs records.

(** The component state and the store once the calls of a handler have
    settled, [oks] telling for each call whether it was carried out. *)
Definition settle `{Platform} (r : result) (oks : list bool) (remote : gmap string value)
    : state * gmap string value :=
  (final r, deliver (zip (calls r) oks) remote).

(** ** A concrete platform and sample data for the examples *)

Definition quoted (s : string) : string :=
  let q := String (ascii_of_nat 34) EmptyString in q ++ s ++ q.

(** The text of a cache with two records, keys [a1] and [b2]. *)
Definition sample_cache : string :=
  "[{" ++ quoted "id" ++ ":" ++ quoted "a1" ++ "},{" ++ quoted "id" ++ ":" ++ quoted "b2" ++ "}]".

Definition sample_records : list value :=
  [VObj {[ "id" := VStr "a1" ]}; VObj {[ "id" := VStr "b2" ]}].

(** References are paths below the user's collection, the empty key and
    keys that are not strings are rejected; every payload is accepted;
    a merge-write replaces the top-level fields it names; the decoder
    knows the two texts used below. *)
Definition sample_platform : Platform := {|
  Number_toString := fun _ => "";
  JSON_parse := fun s =>
    if String.eqb s "[]" then Some (VArr [])
    else if String.eqb s sample_cache then Some (VArr sample_records)
    else None;
  doc := fun uid id =>
    match id with
    | VStr s => if String.eqb s "" then None else Some ("users/" ++ uid ++ "/products/" ++ s)
    | _ => None
    end;
  data_ok := fun _ => true;
  merge_doc := fun old new =>
    match old, new with
    | VObj o, VObj n => VObj (n ∪ o)
    | _, _ => new
    end;
|}.

Definition sample_competitor (brand : string) : value :=
  VObj (<["brand" := VStr brand]> {[ "adLink" := VStr "" ]}).

Definition sample_link (i : string) : value :=
  VObj (<["id" := VStr i]> (<["title" := VStr ("t-" ++ i)]> {[ "url" := VStr "" ]})).

Definition sample_product (i name status : string) (createdAt : option float) : obj :=
  let o : obj :=
    <["id" := VStr i]> (<["name" := VStr name]> (<["status" := VStr status]>
    (<["competitors" := VArr [sample_competitor "x"; sample_competitor "y"; sample_competitor "z"]]>
    {[ "otherLinks" := VArr [sample_link "l1"; sample_link "l2"; sample_link "l3"] ]}))) in
  match createdAt with
  | Some t => <["createdAt" := VNum t]> o
  | None => o
  end.

Definition widget : obj := sample_product "p1" "Widget Pro" "Pending" (Some 100%float).
Definition gadget : obj := sample_product "p2" "Gadget" "Approved" None.

Definition sample_state : state :=
  mkState (Some "u1") [widget; gadget] (Some "p1") "" false ∅.

(** A fresh session: nothing loaded yet, two records in the local cache. *)
Definition cached_state : state :=
  mkState (Some "u1") [] None "" true {[ LOCAL_STORAGE_KEY := sample_cache ]}.

Definition sample_refs : list string :=
  ["users/u1/products/a1"; "users/u1/products/b2"].

(** ** The order of binary64 values *)

(** A finite float [m * 2^e] has [-1074 <= e <= 971]; scaled by
    [2^1074] its value is an integer, at most [(2^53 - 1) * top_ulp].
    Infinities are placed beyond every finite value.  [SFrank] orders
    the values that are not NaN as the floating point comparison does. *)
Definition top_ulp : Z := 2 ^ 2045.
Definition rank_infinity : Z := 2 ^ 53 * top_ulp.

Definition SFrank (x : spec_float) : Z :=
  match x with
  | S754_zero _ | S754_nan => 0
  | S754_infinity s => cond_Zopp s rank_infinity
  | S754_finite s m e => cond_Zopp s (Zpos m * 2 ^ (e + 1074))
  end.

Definition rank (x : float) : Z := SFrank (Prim2SF x).

(** ** Reference notions for the snapshot ordering *)

(** The number a record is ordered by: [createdAt || 0] as a number. *)
Definition sort_key `{Platform} (a : obj) : float := to_number (createdAt_or_0 a).

(** A record whose [createdAt] is absent, a number, or a falsy value. *)
Definition dated (o : obj) : Prop :=
  match o !! "createdAt" with
  | None | Some (VNum _) => True
  | Some v => truthy v = false
  end.

(** Three documents, created at 100, at no recorded time, and at 300. *)
Definition sample_snapshot : list (string * obj) :=
  [("a", {[ "createdAt" := VNum 100%float ]});
   ("b", {[ "id" := VStr "stale" ]});
   ("c", {[ "createdAt" := VNum 300%float ]})].

(** ** More of the component: creation, selection, table cells *)

(** [INITIAL_COMPETITOR] *)
Definition INITIAL_COMPETITOR : obj :=
  <["brand" := VStr ""]> (<["adLink" := VStr ""]> (<["storeLink" := VStr ""]>
  (<["adsCount" := VStr ""]> {[ "traffic" := VStr "" ]}))).

(** [NEW_PRODUCT_TEMPLATE] *)
Definition NEW_PRODUCT_TEMPLATE : obj :=
  <["id" := VStr ""]> (<["name" := VStr ""]> (<["status" := VStr "Pending"]>
  (<["cogs" := VStr ""]> (<["price" := VStr ""]> (<["valueProp" := VStr ""]>
  (<["supplierLink" := VStr ""]> (<["targetMarket" := VStr ""]>
  (<["hasContent" := VBool false]>
  (<["competitors" := VArr [VObj INITIAL_COMPETITOR; VObj INITIAL_COMPETITOR;
                            VObj INITIAL_COMPETITOR]]>
  (<["otherLinks" := VArr []]> (<["personalNotes" := VStr ""]>
  {[ "internalNotes" := VStr "" ]}))))))))))).

(** [{ ...NEW_PRODUCT_TEMPLATE, id: newId, createdAt: Date.now() }] *)
Definition new_product (newId : string) (now : float) : obj :=
  <["createdAt" := VNum now]> (<["id" := VStr newId]> NEW_PRODUCT_TEMPLATE).

(** [handleAddProduct]: [newId] is what [generateId()] returns, [now]
    what [Date.now()] returns, [created] tells whether the promise of
    [setDoc] is fulfilled.  The reference is built and the write is made
    inside the [try]: an exception or a rejection is caught and logged. *)
Definition handleAddProduct `{Platform} (newId : string) (now : float) (created : bool)
    (st : state) : result :=
  match user st with
  | None => done st []
  | Some uid =>
    let newProduct := VObj (new_product newId now) in
    match doc uid (VStr newId) with
    | None => done st []
    | Some ref =>
      if data_ok newProduct then
        if created then done (setSelectedId (Some newId) st) [SetDoc ref newProduct false]
        else done st [SetDoc ref newProduct false]
      else done st []
    end
  end.

(** [products.find((p) => p.id === selectedId)]; with [selectedId]
    [null] the comparison is with [null]. *)
Definition selectedProduct (st : state) : option obj :=
  match selectedId st with
  | Some i => find_product i st
  | None =>
    List.find (fun p => match prop p "id" with VNull => true | _ => false end) (products st)
  end.

(** The break-even cell of a table row: nothing but a dash when the
    result is falsy ([null], the number 0, the empty string); else a
    coloured span that reads "Loss" when the result parses to at most 0
    and the result followed by "x" otherwise.  The colour is emerald
    for a ratio in (0, 1.5], rose otherwise. *)
Inductive cell : Type :=
| Plain (text : string)
| Span (className text : string).

Definition roas_truthy (r : roas) : bool :=
  match r with
  | RoasNull | RoasZero => false
  | RoasFixed s => truthy (VStr s)
  end.

(** [parseFloat(roas)] where [roas] is truthy. *)
Definition roas_number (r : roas) : float :=
  match r with
  | RoasNull => parseFloat_string "null"
  | RoasZero => parseFloat_string "0"
  | RoasFixed s => parseFloat_string s
  end.

Definition roas_text (r : roas) : string :=
  match r with
  | RoasNull => "null"
  | RoasZero => "0"
  | RoasFixed s => s
  end.

Definition roasCell (r : roas) : cell :=
  if roas_truthy r then
    Span (if (roas_number r <=? 1.5)%float && (0 <? roas_number r)%float
          then "text-emerald-600" else "text-rose-600")
         (if (roas_number r <=? 0)%float then "Loss" else roas_text r ++ "x")
  else Plain "-".

(** The margin cell of a table row:
    [!isNaN(margin) && product.price && product.cogs ? formatCurrency(margin) : "-"]
    with [margin = parseFloat(product.price) - parseFloat(product.cogs)]. *)
Definition marginCell `{Platform} (product : obj) : string :=
  let margin := (parseFloat (prop product "price") - parseFloat (prop product "cogs"))%float in
  if negb (is_nan margin) && truthy (prop product "price") && truthy (prop product "cogs")
  then formatCurrency (VNum margin)
  else "-".

(** A row of the table computes [calculateRoas(product.price, product.cogs)]. *)
Definition rowRoasCell `{Platform} (product : obj) : cell :=
  roasCell (calculateRoas (prop product "price") (prop product "cogs")).

(** [setSearchQuery(e.target.value)] of the search box. *)
Definition setSearchQuery (q : string) (st : state) : state :=
  mkState (user st) (products st) (selectedId st) q (loading st) (localStorage st).

(** The document a call addresses. *)
Definition call_ref (c : call) : string :=
  match c with
  | SetDoc ref _ _ => ref
  | DeleteDoc ref => ref
  end.

(** The handlers of the component as the interface invokes them, with
    what the environment contributes to each invocation (the generated
    id, the clock, the outcome of an awaited promise). *)
Inductive invocation : Type :=
| AddProduct (newId : string) (now : float) (created : bool)
| UpdateProduct (id field : string) (v : value)
| UpdateCompetitor (productId : string) (compIndex : nat) (field : string) (v : value)
| AddOtherLink (productId newId : string)
| UpdateOtherLink (productId linkId field : string) (v : value)
| DeleteOtherLink (productId linkId : string)
| DeleteProduct (id : string) (deleted : bool).

Definition invoke `{Platform} (i : invocation) (st : state) : result :=
  match i with
  | AddProduct newId now created => handleAddProduct newId now created st
  | UpdateProduct id field v => handleUpdateProduct id field v st
  | UpdateCompetitor productId compIndex field v =>
    handleUpdateCompetitor productId compIndex field v st
  | AddOtherLink productId newId => handleAddOtherLink productId newId st
  | UpdateOtherLink productId linkId field v =>
    handleUpdateOtherLink productId linkId field v st
  | DeleteOtherLink productId linkId => handleDeleteOtherLink productId linkId st
  | DeleteProduct id deleted => handleDeleteProduct id deleted st
  end.

(** A cache whose second record has no [id]: the text and its records. *)
Definition faulty_cache : string :=
  "[{" ++ quoted "id" ++ ":" ++ quoted "a1" ++ "},{},{" ++ quoted "id" ++ ":" ++ quoted "c3" ++ "}]".

Definition faulty_records : list value :=
  [VObj {[ "id" := VStr "a1" ]}; VObj ∅; VObj {[ "id" := VStr "c3" ]}].

(** The sample platform with a decoder that knows [faulty_cache]. *)
Definition faulty_platform : Platform := {|
  Number_toString := @Number_toString sample_platform;
  JSON_parse := fun s =>
    if String.eqb s faulty_cache then Some (VArr faulty_records) else None;
  doc := @doc sample_platform;
  data_ok := @data_ok sample_platform;
  merge_doc := @merge_doc sample_platform;
|}.

(** ** More sample data *)

(** Two documents without a creation time around one that has one. *)
Definition tied_snapshot : list (string * obj) :=
  [("a", ∅); ("b", {[ "createdAt" := VNum 5%float ]}); ("c", ∅)].

(** A session whose cache does not decode. *)
Definition garbled_state : state :=
  mkState (Some "u1") [] None "" true {[ LOCAL_STORAGE_KEY := "oops" ]}.

(** A session whose cache is [faulty_cache]. *)
Definition faulty_state : state :=
  mkState (Some "u1") [] None "" true {[ LOCAL_STORAGE_KEY := faulty_cache ]}.

(** Nobody signed in. *)
Definition signed_out_state : state := mkState None [widget] (Some "p1") "" false ∅.

(** A product that has neither competitors nor links. *)
Definition bare_product : obj := {[ "id" := VStr "p3" ]}.
Definition bare_state : state := mkState (Some "u1") [bare_product] None "" false ∅.

(** A product with a [null] among its links. *)
Definition holed_product : obj :=
  <["id" := VStr "p4"]> {[ "otherLinks" := VArr [sample_link "l1"; VNull] ]}.
Definition holed_state : state := mkState (Some "u1") [holed_product] None "" false ∅.

(** A product sold at cost, and one sold below cost. *)
Definition at_cost_product : obj := <["price" := VStr "10"]> {[ "cogs" := VStr "10" ]}.

(** * Properties *)

(** ** Lists and callbacks *)

Lemma filterM_total {A} (f : A -> option bool) (g : A -> bool) (l : list A) :
  Forall (fun x => f x = Some (g x)) l ->
  filterM f l = Some (List.filter g l).
Proof.
  induction 1 as [|x l Hx _ IH]; simpl; [reflexivity|].
  rewrite Hx, IH. reflexivity.
Qed.

Lemma mapM'_total {A B} (f : A -> option B) (g : A -> B) (l : list A) :
  Forall (fun x => f x = Some (g x)) l ->
  mapM' f l = Some (map g l).
Proof.
  induction 1 as [|x l Hx _ IH]; simpl; [reflexivity|].
  rewrite Hx, IH. reflexivity.
Qed.

Lemma map_id_on {A} (g : A -> A) (l : list A) :
  Forall (fun x => g x = x) l -> map g l = l.
Proof. induction 1; simpl; congruence. Qed.

Lemma filter_all {A} (g : A -> bool) (l : list A) :
  Forall (fun x => g x = true) l -> List.filter g l = l.
Proof.
  induction 1 as [|x l Hx _ IH]; simpl; [reflexivity|].
  rewrite Hx, IH. reflexivity.
Qed.

Lemma filter_sublist {A} (g : A -> bool) (l : list A) : sublist (List.filter g l) l.
Proof.
  induction l as [|x l IH]; simpl; [constructor|].
  destruct (g x); [apply sublist_skip | apply sublist_cons]; exact IH.
Qed.

Lemma find_none_iff {A} (g : A -> bool) (l : list A) :
  List.find g l = None <-> Forall (fun x => g x = false) l.
Proof.
  induction l as [|x l IH]; simpl.
  - split; [constructor | reflexivity].
  - destruct (g x) eqn:E.
    + split; [discriminate | inversion 1; congruence].
    + rewrite IH. split; [by constructor | by inversion 1].
Qed.

Lemma is_string_spec s v : is_string s v = true <-> v = VStr s.
Proof.
  destruct v; simpl; try (split; [discriminate | discriminate]).
  rewrite String.eqb_eq. split; congruence.
Qed.

(** ** Sorting *)

Lemma sort_insert_perm {A} (cmp : A -> A -> float) x l :
  Permutation (sort_insert cmp x l) (x :: l).
Proof.
  induction l as [|y l IH]; simpl; [reflexivity|].
  destruct (0 <? cmp x y)%float; [|reflexivity].
  rewrite IH. apply perm_swap.
Qed.

Lemma sort_perm {A} (cmp : A -> A -> float) l : Permutation (sort cmp l) l.
Proof.
  induction l as [|x l IH]; simpl; [reflexivity|].
  unfold sort in *. simpl. rewrite sort_insert_perm. by constructor.
Qed.

(** ** Substrings *)

Lemma startsWith_spec s t : startsWith s t = true <-> exists b, s = t ++ b.
Proof.
  revert s. induction t as [|c t IH]; intros s; simpl.
  - split; [intros _; by exists s | reflexivity].
  - destruct s as [|d s]; [split; [discriminate | intros [b Hb]; discriminate]|].
    rewrite andb_true_iff, Ascii.eqb_eq, IH. split.
    + intros [-> [b ->]]. by exists b.
    + intros [b Hb]. inversion Hb; subst. split; [reflexivity | by exists b].
Qed.

Lemma includes_spec s t : includes s t = true <-> occurs_in t s.
Proof.
  unfold occurs_in. induction s as [|c s IH].
  - simpl. rewrite orb_false_r, startsWith_spec. split.
    + intros [b Hb]. exists "", b. exact Hb.
    + intros (a & b & Hab). destruct a; [by exists b | discriminate].
  - cbn [includes]. rewrite orb_true_iff, startsWith_spec, IH. split.
    + intros [[b Hb] | (a & b & Hab)].
      * exists "", b. exact Hb.
      * exists (String c a), b. simpl. by rewrite Hab.
    + intros (a & b & Hab). destruct a as [|d a].
      * left. by exists b.
      * right. exists a, b. simpl in Hab. by inversion Hab.
Qed.

Lemma includes_empty s : includes s "" = true.
Proof. destruct s; reflexivity. Qed.

Section AppProperties.
Context `{Platform}.

(** ** Mutations addressed to a product that is not there *)

Lemma find_product_none productId st :
  (forall p, p ∈ products st -> prop p "id" <> VStr productId) ->
  find_product productId st = None.
Proof.
  intros Hno. apply find_none_iff, Forall_forall. intros p Hp.
  destruct (is_string productId (prop p "id")) eqn:E; [|reflexivity].
  apply is_string_spec in E. exfalso. eapply Hno; eauto.
Qed.

(** C9: a competitor or link mutation whose product id matches no
    product of the local collection ends normally, makes no call to the
    store and leaves the state as it was. *)
Theorem mutation_of_unknown_product_is_noop productId st :
  (forall p, p ∈ products st -> prop p "id" <> VStr productId) ->
  (forall compIndex field v,
      handleUpdateCompetitor productId compIndex field v st = done st []) /\
  (forall newId, handleAddOtherLink productId newId st = done st []) /\
  (forall linkId field v,
      handleUpdateOtherLink productId linkId field v st = done st []) /\
  (forall linkId, handleDeleteOtherLink productId linkId st = done st []).
Proof.
  intros Hno. pose proof (find_product_none _ _ Hno) as Hfind.
  unfold handleUpdateCompetitor, handleAddOtherLink, handleUpdateOtherLink,
    handleDeleteOtherLink.
  rewrite Hfind. repeat split; intros; destruct (user st); reflexivity.
Qed.

(** ** Deleting a product *)

(** C4 (as amended): the selection is cleared exactly when a user is
    signed in, the store accepts the reference and the delete is carried
    out, whichever product was selected; in every other case the
    selection is what it was. *)
Theorem delete_product_selection id deleted st :
  selectedId (final (handleDeleteProduct id deleted st)) =
    match user st with
    | Some uid =>
      match doc uid (VStr id) with
      | Some _ => if deleted then None else selectedId st
      | None => selectedId st
      end
    | None => selectedId st
    end.
Proof.
  unfold handleDeleteProduct.
  destruct (user st) as [uid|]; [|reflexivity].
  destruct (doc uid (VStr id)); [|reflexivity].
  destruct deleted; reflexivity.
Qed.

(** ** Updating one competitor *)

Lemma set_competitor_field_length comps i field v :
  (i < length comps)%nat -> length (set_competitor_field comps i field v) = length comps.
Proof.
  intros Hi. unfold set_competitor_field, array_set.
  destruct (decide (i < length comps)%nat); [|contradiction].
  apply length_insert.
Qed.

Lemma set_competitor_field_other comps i field v j :
  (i < length comps)%nat -> j <> i ->
  set_competitor_field comps i field v !! j = comps !! j.
Proof.
  intros Hi Hj. unfold set_competitor_field, array_set.
  destruct (decide (i < length comps)%nat); [|contradiction].
  apply list_lookup_insert_ne. congruence.
Qed.

Lemma set_competitor_field_at comps i field v :
  (i < length comps)%nat ->
  set_competitor_field comps i field v !! i =
    Some (VObj (<[field := v]> (object_spread (array_get comps i)))).
Proof.
  intros Hi. unfold set_competitor_field, array_set.
  destruct (decide (i < length comps)%nat); [|contradiction].
  by apply list_lookup_insert_eq.
Qed.

(** C5: for a product of the local collection whose competitors are
    the array [comps] and an index [i] within it, the handler hands to
    the field update a sequence of the same length in which every other
    element is the original one and element [i] is the original
    competitor with [field] set to [v] and every other field kept. *)
Theorem update_competitor_frame productId i field v st uid product comps :
  user st = Some uid ->
  find_product productId st = Some product ->
  prop product "competitors" = VArr comps ->
  (i < length comps)%nat ->
  exists newCompetitors,
    handleUpdateCompetitor productId i field v st =
      fire (handleUpdateProduct productId "competitors" (VArr newCompetitors) st) /\
    length newCompetitors = length comps /\
    (forall j, j <> i -> newCompetitors !! j = comps !! j) /\
    exists c,
      newCompetitors !! i = Some (VObj c) /\
      c !! field = Some v /\
      (forall g, g <> field -> c !! g = object_spread (array_get comps i) !! g) /\
      (forall o, comps !! i = Some (VObj o) -> c = <[field := v]> o).
Proof.
  intros Hu Hf Hc Hi.
  exists (set_competitor_field comps i field v). split.
  { unfold handleUpdateCompetitor. rewrite Hu, Hf, Hc. reflexivity. }
  split; [by apply set_competitor_field_length|].
  split; [intros j Hj; by apply set_competitor_field_other|].
  eexists. split; [by apply set_competitor_field_at|].
  split; [apply lookup_insert_eq|].
  split.
  - intros g Hg. by apply lookup_insert_ne.
  - intros o Ho. unfold array_get. rewrite Ho. reflexivity.
Qed.

(** ** Deleting and updating links *)

Lemma keep_link_total linkId links :
  Forall (fun l => is_Some (get l "id")) links ->
  Forall (fun l => keep_link linkId l = Some (negb (has_link_id linkId l))) links.
Proof.
  intros Hread. eapply Forall_impl; [exact Hread|].
  intros l [i Hi]. unfold keep_link, has_link_id.
  rewrite Hi. reflexivity.
Qed.

Lemma has_link_id_spec linkId l :
  has_link_id linkId l = true <-> get l "id" = Some (VStr linkId).
Proof.
  unfold has_link_id. destruct (get l "id") as [i|].
  - rewrite is_string_spec. split; congruence.
  - split; discriminate.
Qed.

(** C6: for a product of the local collection whose links can be read,
    deleting a link id hands to the field update the original sequence
    without the links of that id: what is kept is a subsequence of the
    original (same links, same relative order) and a link is kept
    exactly when its id is another one. *)
Theorem delete_link_frame productId linkId st uid product links :
  user st = Some uid ->
  find_product productId st = Some product ->
  links_of product = Some links ->
  Forall (fun l => is_Some (get l "id")) links ->
  exists newLinks,
    handleDeleteOtherLink productId linkId st =
      fire (handleUpdateProduct productId "otherLinks" (VArr newLinks) st) /\
    newLinks = List.filter (fun l => negb (has_link_id linkId l)) links /\
    sublist newLinks links /\
    (forall l, l ∈ newLinks <-> l ∈ links /\ get l "id" <> Some (VStr linkId)).
Proof.
  intros Hu Hf Hl Hread. eexists. split; [|split; [reflexivity|split]].
  - unfold handleDeleteOtherLink. unfold links_of in Hl. rewrite Hu, Hf, Hl.
    rewrite (filterM_total _ _ _ (keep_link_total linkId links Hread)).
    reflexivity.
  - apply filter_sublist.
  - intros l. rewrite !list_elem_of_In, filter_In, negb_true_iff.
    rewrite <- has_link_id_spec. destruct (has_link_id linkId l); intuition congruence.
Qed.

Lemma update_link_absent linkId field v links :
  Forall (fun l => exists i, get l "id" = Some i /\ i <> VStr linkId) links ->
  mapM' (update_link linkId field v) links = Some links.
Proof.
  intros Habs. rewrite (mapM'_total _ (fun l => l)).
  - by rewrite map_id.
  - eapply Forall_impl; [exact Habs|]. intros l (i & Hi & Hne). unfold update_link.
    rewrite Hi. destruct (is_string linkId i) eqn:E; [|reflexivity].
    apply is_string_spec in E. contradiction.
Qed.

Lemma keep_link_absent linkId links :
  Forall (fun l => exists i, get l "id" = Some i /\ i <> VStr linkId) links ->
  filterM (keep_link linkId) links = Some links.
Proof.
  intros Habs. rewrite (filterM_total _ (fun _ => true)).
  - by rewrite filter_all; [|apply Forall_forall].
  - eapply Forall_impl; [exact Habs|]. intros l (i & Hi & Hne). unfold keep_link.
    rewrite Hi. destruct (is_string linkId i) eqn:E; [|reflexivity].
    apply is_string_spec in E. contradiction.
Qed.

(** C10: for a product of the local collection and a link id that none
    of its links carries, updating and deleting that link both hand the
    original sequence, unchanged, to the field update. *)
Theorem absent_link_id_keeps_links productId linkId st uid product links :
  user st = Some uid ->
  find_product productId st = Some product ->
  links_of product = Some links ->
  Forall (fun l => exists i, get l "id" = Some i /\ i <> VStr linkId) links ->
  (forall field v,
      handleUpdateOtherLink productId linkId field v st =
        fire (handleUpdateProduct productId "otherLinks" (VArr links) st)) /\
  handleDeleteOtherLink productId linkId st =
    fire (handleUpdateProduct productId "otherLinks" (VArr links) st).
Proof.
  intros Hu Hf Hl Habs. unfold links_of in Hl. split.
  - intros field v. unfold handleUpdateOtherLink. rewrite Hu, Hf, Hl.
    rewrite (update_link_absent _ _ _ _ Habs). reflexivity.
  - unfold handleDeleteOtherLink. rewrite Hu, Hf, Hl.
    rewrite (keep_link_absent _ _ Habs). reflexivity.
Qed.

(** ** The one-shot migration *)

Lemma project_nil snapshot : project snapshot = [] <-> snapshot = [].
Proof.
  split; [|intros ->; reflexivity].
  intros Hp. pose proof (sort_perm byCreatedAt (map project_doc snapshot)) as Hperm.
  unfold project in Hp. rewrite Hp in Hperm.
  apply Permutation_nil_l in Hperm. by destruct snapshot.
Qed.

Lemma migrate_total uid records refs :
  Forall2 (fun prod ref =>
    exists id, get prod "id" = Some id /\ doc uid id = Some ref /\ data_ok prod = true)
    records refs ->
  migrate uid records = (migration_writes refs records, false).
Proof.
  induction 1 as [|prod ref records refs (id & Hid & Hdoc & Hok) _ IH]; simpl.
  - reflexivity.
  - rewrite Hid, Hdoc, Hok, IH. reflexivity.
Qed.

Lemma deliver_untouched cs remote ref :
  Forall (fun c => match c.1 with SetDoc r _ _ => r <> ref | DeleteDoc r => r <> ref end) cs ->
  deliver cs remote !! ref = remote !! ref.
Proof.
  revert remote. induction cs as [|[c ok] cs IH]; intros remote Hcs; simpl; [reflexivity|].
  inversion Hcs as [|? ? Hc Hcs']; subst. rewrite IH by exact Hcs'.
  destruct ok; [|reflexivity]. simpl in Hc.
  destruct c as [r d [|]|r]; simpl.
  - destruct (remote !! r); by rewrite lookup_insert_ne.
  - by rewrite lookup_insert_ne.
  - by rewrite lookup_delete_ne.
Qed.

Lemma deliver_migration refs records remote :
  length refs = length records -> NoDup refs ->
  Forall2 (fun prod ref =>
    deliver (map (fun c => (c, true)) (migration_writes refs records)) remote !! ref = Some prod)
    records refs.
Proof.
  revert records remote. induction refs as [|ref refs IH]; intros [|prod records] remote Hlen Hnd;
    try discriminate; [constructor|].
  inversion Hnd as [|? ? Hnotin Hnd']; subst. simpl. constructor.
  - rewrite deliver_untouched; [apply lookup_insert_eq|].
    apply Forall_forall. intros [c ok] Hin. simpl.
    apply list_elem_of_fmap in Hin as (c' & Heq & Hin). inversion Heq; subst c' ok.
    unfold migration_writes in Hin.
    apply elem_of_zip_with in Hin as (r & p & -> & Hr & _).
    intros ->. contradiction.
  - apply IH; [simpl in Hlen; lia | exact Hnd'].
Qed.

(** C2: the callback calls the store or touches the local cache only
    when the snapshot has no record and the cache slot holds a
    non-empty text.  Then, for a cache that decodes to an array of
    records the library accepts, it makes one plain (create or
    overwrite) write per record at the reference of the record's own
    id, in order, and removes the cache slot; the slot is gone whatever
    the outcome of the writes, and when all are carried out, on
    distinct references, the store holds every record at its
    reference. *)
Theorem migration_spec uid snapshot st :
  let r := onSnapshot uid snapshot st in
  ((calls r <> [] \/ localStorage (final r) <> localStorage st) ->
   snapshot = [] /\
   exists savedLocal,
     localStorage st !! LOCAL_STORAGE_KEY = Some savedLocal /\ savedLocal <> "") /\
  (forall savedLocal records refs,
     snapshot = [] ->
     localStorage st !! LOCAL_STORAGE_KEY = Some savedLocal ->
     savedLocal <> "" ->
     JSON_parse savedLocal = Some (VArr records) ->
     Forall2 (fun prod ref =>
       exists id, get prod "id" = Some id /\ doc uid id = Some ref /\ data_ok prod = true)
       records refs ->
     threw r = false /\
     calls r = migration_writes refs records /\
     localStorage (final r) = delete LOCAL_STORAGE_KEY (localStorage st) /\
     (forall oks remote,
        localStorage (settle r oks remote).1 !! LOCAL_STORAGE_KEY = None) /\
     (NoDup refs ->
      forall remote,
        Forall2 (fun prod ref =>
          (settle r (map (fun _ => true) (calls r)) remote).2 !! ref = Some prod)
          records refs)).
Proof.
  intros r. split.
  - subst r. unfold onSnapshot.
    destruct (decide (length (project snapshot) = 0)%nat) as [Hlen|Hlen]; simpl;
      [|intros [Hc|Hs]; contradiction].
    apply length_zero_iff_nil, project_nil in Hlen.
    destruct (localStorage st !! LOCAL_STORAGE_KEY) as [s|] eqn:Hs; simpl;
      [|intros [Hc|Hc]; contradiction].
    destruct (String.eqb s "") eqn:Hne; simpl; [intros [Hc|Hc]; contradiction|].
    intros _. split; [exact Hlen|]. exists s. split; [reflexivity|].
    by apply String.eqb_neq.
  - intros s records refs -> Hs Hne Hparse Hrec.
    assert (Hr : r = done (removeItem LOCAL_STORAGE_KEY
                             (setLoading false (setProducts [] st)))
                          (migration_writes refs records)).
    { subst r. unfold onSnapshot. simpl. rewrite Hs. simpl.
      apply String.eqb_neq in Hne. rewrite Hne. simpl. rewrite Hparse. simpl.
      rewrite (migrate_total _ _ _ Hrec). reflexivity. }
    rewrite Hr. simpl. repeat split.
    + intros oks remote. apply lookup_delete_eq.
    + intros Hnd remote. unfold settle. simpl.
      assert (Hz : zip (migration_writes refs records)
                     (map (fun _ => true) (migration_writes refs records))
                   = map (fun c => (c, true)) (migration_writes refs records)).
      { generalize (migration_writes refs records). intros cs.
        induction cs as [|c cs IH]; simpl; [reflexivity|]. f_equal. exact IH. }
      rewrite Hz. apply deliver_migration; [|exact Hnd].
      symmetry. eapply Forall2_length; exact Hrec.
Qed.

(** ** The search filter *)

Lemma matches_well_formed query p :
  well_formed_product p -> matches query p = Some (name_or_status_matches query p).
Proof.
  intros (name & status & Hn & Hs). unfold matches, name_or_status_matches.
  rewrite Hn, Hs. by destruct (includes (toLowerCase name) (toLowerCase query)).
Qed.

Lemma name_or_status_matches_spec query p :
  name_or_status_matches query p = true <->
  exists name status,
    prop p "name" = VStr name /\ prop p "status" = VStr status /\
    (occurs_in (toLowerCase query) (toLowerCase name) \/
     occurs_in (toLowerCase query) (toLowerCase status)).
Proof.
  unfold name_or_status_matches. split.
  - destruct (prop p "name") as [| | | |name| |]; try discriminate.
    destruct (prop p "status") as [| | | |status| |]; try discriminate.
    rewrite orb_true_iff, !includes_spec. intros Hm. by exists name, status.
  - intros (name & status & -> & -> & Hm).
    by rewrite orb_true_iff, !includes_spec.
Qed.

(** C7 (as amended): on a collection of well-formed products the
    filter returns the products whose name or status, lower-cased,
    contains the lower-cased query, in the order of the collection; the
    empty query returns the whole collection.  With "Widget Pro"
    (Pending) and "Gadget" (Approved): "pro" selects both, since it
    occurs in "approved"; "widget" selects the first, "approved" the
    second, the empty query both. *)
Theorem filter_spec :
  (forall st,
     Forall well_formed_product (products st) ->
     exists shown,
       filteredProducts st = Some shown /\
       shown = List.filter (name_or_status_matches (searchQuery st)) (products st) /\
       sublist shown (products st) /\
       (forall p, p ∈ shown <->
          p ∈ products st /\
          exists name status,
            prop p "name" = VStr name /\ prop p "status" = VStr status /\
            (occurs_in (toLowerCase (searchQuery st)) (toLowerCase name) \/
             occurs_in (toLowerCase (searchQuery st)) (toLowerCase status))) /\
       (searchQuery st = "" -> shown = products st)) /\
  filteredProducts (mkState None [widget; gadget] None "pro" false ∅) = Some [widget; gadget] /\
  filteredProducts (mkState None [widget; gadget] None "widget" false ∅) = Some [widget] /\
  filteredProducts (mkState None [widget; gadget] None "approved" false ∅) = Some [gadget] /\
  filteredProducts (mkState None [widget; gadget] None "" false ∅) = Some [widget; gadget].
Proof.
  split; [|repeat split; vm_compute; reflexivity].
  intros st Hwf. eexists. split; [|split; [reflexivity|split; [|split]]].
  - unfold filteredProducts. apply filterM_total.
    eapply Forall_impl; [exact Hwf|]. intros p Hp. by apply matches_well_formed.
  - apply filter_sublist.
  - intros p. rewrite !list_elem_of_In, filter_In, name_or_status_matches_spec.
    reflexivity.
  - intros ->. apply filter_all.
    eapply Forall_impl; [exact Hwf|]. intros p (name & status & Hn & Hs).
    unfold name_or_status_matches. rewrite Hn, Hs. simpl.
    by rewrite includes_empty.
Qed.

End AppProperties.

(** ** Binary64: digits, canonical mantissas, comparison *)

Local Open Scope Z_scope.

(** The two mantissa bounds, as numerals for [lia]. *)
Ltac mantissa_bounds :=
  change (2 ^ 53) with 9007199254740992 in *;
  change (2 ^ 52) with 4503599627370496 in *.

Lemma digits2_size m : digits2_pos m = Pos.size m.
Proof. induction m; simpl; congruence. Qed.

Lemma digits2_bounds m :
  2 ^ (Zpos (digits2_pos m) - 1) <= Zpos m < 2 ^ Zpos (digits2_pos m).
Proof.
  rewrite digits2_size. split.
  - pose proof (Pos.size_le m) as Hle.
    assert (H2 : Zpos (2 ^ Pos.size m) <= Zpos m~0) by (apply Pos2Z.pos_le_pos; exact Hle).
    rewrite Pos2Z.inj_pow in H2.
    replace (Zpos (Pos.size m)) with (Z.succ (Zpos (Pos.size m) - 1)) in H2 by lia.
    rewrite Z.pow_succ_r in H2 by lia. lia.
  - pose proof (Pos.size_gt m) as Hgt.
    assert (H2 : Zpos m < Zpos (2 ^ Pos.size m)) by (apply Pos2Z.pos_lt_pos; exact Hgt).
    by rewrite Pos2Z.inj_pow in H2.
Qed.

Lemma pow2_pos k : 0 <= k -> 0 < 2 ^ k.
Proof. intros. by apply Z.pow_pos_nonneg. Qed.

Lemma pow2_le a b : 0 <= a <= b -> 2 ^ a <= 2 ^ b.
Proof. intros. apply Z.pow_le_mono_r; lia. Qed.

Lemma pow2_lt a b : 0 <= a < b -> 2 ^ a < 2 ^ b.
Proof. intros. apply Z.pow_lt_mono_r; lia. Qed.

Lemma pow2_split a b : 0 <= a -> 0 <= b -> 2 ^ (a + b) = 2 ^ a * 2 ^ b.
Proof. intros. by apply Z.pow_add_r. Qed.

Lemma compare_scale a b p : 0 < p -> (a * p ?= b * p) = (a ?= b).
Proof.
  intros Hp. destruct (Z.compare_spec a b);
    [apply Z.compare_eq_iff | apply Z.compare_lt_iff | apply Z.compare_gt_iff]; nia.
Qed.

(** What it means for a finite float to be a binary64 value. *)
Lemma bounded_inv m e :
  bounded prec emax m e = true ->
  -1074 <= e <= 971 /\ Zpos (digits2_pos m) <= 53 /\
  (Zpos (digits2_pos m) = 53 \/ e = -1074).
Proof.
  unfold bounded, canonical_mantissa, fexp, SpecFloat.emin, prec, emax.
  rewrite andb_true_iff, Z.eqb_eq, Z.leb_le. lia.
Qed.

Lemma bounded_mantissa m e :
  bounded prec emax m e = true ->
  -1074 <= e <= 971 /\ Zpos m < 2 ^ 53 /\ (2 ^ 52 <= Zpos m \/ e = -1074).
Proof.
  intros Hb. apply bounded_inv in Hb as (He & Hd & Hn).
  pose proof (digits2_bounds m) as [Hlo Hhi]. split; [exact He|]. split.
  - eapply Z.lt_le_trans; [exact Hhi|]. apply pow2_le. lia.
  - destruct Hn as [Hn|Hn]; [left|by right]. by rewrite Hn in Hlo.
Qed.

(** [top_ulp] is only used through these three facts. *)
Lemma top_ulp_pos : 0 < top_ulp.
Proof. unfold top_ulp. apply pow2_pos. lia. Qed.

Lemma pow2_le_top k j : 0 <= k -> 0 <= j -> k + j <= 2045 -> 2 ^ j * 2 ^ k <= 2 ^ j * top_ulp.
Proof.
  intros Hk Hj Hkj. unfold top_ulp. rewrite <- !pow2_split by lia. apply pow2_le. lia.
Qed.

Lemma pow2_ge_top k j : 0 <= j -> 2045 + j <= k -> 2 ^ j * top_ulp <= 2 ^ k.
Proof.
  intros Hj Hk. unfold top_ulp. rewrite <- pow2_split by lia. apply pow2_le. lia.
Qed.

Lemma top_ulp_split n k : 0 <= n -> 0 <= k -> n + k = 2045 -> top_ulp = 2 ^ n * 2 ^ k.
Proof. intros Hn Hk Hnk. unfold top_ulp. rewrite <- pow2_split by lia. by rewrite Hnk. Qed.

Global Opaque top_ulp rank_infinity.

Lemma rank_infinity_eq : rank_infinity = 9007199254740992 * top_ulp.
Proof. reflexivity. Qed.

Lemma finite_rank_bounds m e :
  bounded prec emax m e = true ->
  0 < Zpos m * 2 ^ (e + 1074) <= (2 ^ 53 - 1) * top_ulp.
Proof.
  intros Hb. apply bounded_mantissa in Hb as (He & Hm & _).
  pose proof (pow2_pos (e + 1074) ltac:(lia)) as Hp.
  pose proof (pow2_le_top (e + 1074) 0 ltac:(lia) ltac:(lia) ltac:(lia)) as Ht.
  change (2 ^ 0) with 1 in Ht. pose proof top_ulp_pos. mantissa_bounds.
  split; [lia | nia].
Qed.

(** Among binary64 values the comparison by exponent, then mantissa,
    is the comparison of the values. *)
Lemma magnitude_compare m1 e1 m2 e2 :
  bounded prec emax m1 e1 = true -> bounded prec emax m2 e2 = true ->
  match e1 ?= e2 with
  | Lt => Lt
  | Gt => Gt
  | Eq => Pos.compare_cont Eq m1 m2
  end = (Zpos m1 * 2 ^ (e1 + 1074) ?= Zpos m2 * 2 ^ (e2 + 1074)).
Proof.
  intros H1 H2.
  apply bounded_mantissa in H1 as (He1 & Hm1 & Hn1).
  apply bounded_mantissa in H2 as (He2 & Hm2 & Hn2).
  mantissa_bounds.
  destruct (Z.compare_spec e1 e2) as [->|Hlt|Hgt].
  - change (Pos.compare_cont Eq m1 m2) with (Zpos m1 ?= Zpos m2).
    symmetry. apply compare_scale. apply pow2_pos. lia.
  - symmetry. apply Z.compare_lt_iff.
    replace (e2 + 1074) with ((e1 + 1074) + (e2 - e1)) by lia.
    rewrite (pow2_split (e1 + 1074) (e2 - e1)) by lia.
    pose proof (pow2_pos (e1 + 1074) ltac:(lia)) as Hp.
    pose proof (pow2_le 1 (e2 - e1) ltac:(lia)) as Hq. change (2 ^ 1) with 2 in Hq.
    assert (Hm : Zpos m1 < Zpos m2 * 2 ^ (e2 - e1)) by (destruct Hn2; nia).
    nia.
  - symmetry. apply Z.compare_gt_iff.
    replace (e1 + 1074) with ((e2 + 1074) + (e1 - e2)) by lia.
    rewrite (pow2_split (e2 + 1074) (e1 - e2)) by lia.
    pose proof (pow2_pos (e2 + 1074) ltac:(lia)) as Hp.
    pose proof (pow2_le 1 (e1 - e2) ltac:(lia)) as Hq. change (2 ^ 1) with 2 in Hq.
    assert (Hm : Zpos m2 < Zpos m1 * 2 ^ (e1 - e2)) by (destruct Hn1; nia).
    nia.
Qed.

Ltac solve_compare :=
  f_equal; symmetry;
  first [ apply Z.compare_eq_iff; lia
        | apply Z.compare_lt_iff; lia
        | apply Z.compare_gt_iff; lia ].

Lemma SFcompare_rank x y :
  valid_binary x = true -> valid_binary y = true ->
  x <> S754_nan -> y <> S754_nan ->
  SFcompare x y = Some (SFrank x ?= SFrank y).
Proof.
  intros Hx Hy Hnx Hny.
  pose proof top_ulp_pos as HB. pose proof rank_infinity_eq as HI.
  destruct x as [sx|sx| |sx mx ex], y as [sy|sy| |sy my ey];
    try congruence; cbn [valid_binary] in Hx, Hy;
    try (pose proof (finite_rank_bounds _ _ Hx) as Hrx);
    try (pose proof (finite_rank_bounds _ _ Hy) as Hry);
    unfold SFrank, SFcompare, cond_Zopp; mantissa_bounds.
  1-8: repeat match goal with b : bool |- _ => destruct b end; solve_compare.
  pose proof (magnitude_compare _ _ _ _ Hx Hy) as Hc.
  destruct sx, sy; f_equal.
  - rewrite Z.compare_opp, (Z.compare_antisym (Zpos mx * _)), <- Hc.
    by destruct (ex ?= ey).
  - symmetry. apply Z.compare_lt_iff. lia.
  - symmetry. apply Z.compare_gt_iff. lia.
  - exact Hc.
Qed.

(** ** Binary64: rounding *)

Lemma shr_1_div2 mrs : 0 <= shr_m mrs -> shr_m (shr_1 mrs) = shr_m mrs / 2.
Proof.
  destruct mrs as [m r s]. cbn [shr_m shr_1]. intros Hm.
  destruct m as [|[p|p|]|p]; cbn [shr_m]; try lia.
  - reflexivity.
  - apply Z.div_unique with 1; lia.
  - apply Z.div_unique with 0; lia.
  - reflexivity.
Qed.

Lemma div_pow2_twice a j k : 0 <= j -> 0 <= k -> a / 2 ^ j / 2 ^ k = a / 2 ^ (j + k).
Proof.
  intros Hj Hk. rewrite (pow2_split j k) by lia.
  pose proof (pow2_pos j Hj). pose proof (pow2_pos k Hk).
  apply Z.div_div; lia.
Qed.

Lemma iter_shr_1_div p : forall mrs,
  0 <= shr_m mrs -> shr_m (SpecFloat.iter_pos shr_1 p mrs) = shr_m mrs / 2 ^ Zpos p.
Proof.
  induction p as [p IH|p IH|]; intros mrs Hm; simpl SpecFloat.iter_pos.
  - assert (H1 : 0 <= shr_m (shr_1 mrs)) by (rewrite shr_1_div2 by lia; apply Z.div_pos; lia).
    assert (H2 : 0 <= shr_m (SpecFloat.iter_pos shr_1 p (shr_1 mrs))).
    { rewrite IH by lia. apply Z.div_pos; [lia | apply pow2_pos; lia]. }
    rewrite IH, IH, shr_1_div2 by lia.
    change 2 with (2 ^ 1) at 1.
    rewrite !div_pow2_twice by lia. f_equal. f_equal. lia.
  - assert (H2 : 0 <= shr_m (SpecFloat.iter_pos shr_1 p mrs)).
    { rewrite IH by lia. apply Z.div_pos; [lia | apply pow2_pos; lia]. }
    rewrite IH, IH by lia.
    rewrite !div_pow2_twice by lia. f_equal. f_equal. lia.
  - rewrite shr_1_div2 by lia. reflexivity.
Qed.

Lemma shr_record_of_loc_m m l : shr_m (shr_record_of_loc m l) = m.
Proof. by destruct l as [|[| |]]. Qed.

Lemma round_nearest_even_bounds m l : m <= round_nearest_even m l <= m + 1.
Proof. destruct l as [|[| |]]; simpl; try lia. destruct (Z.even m); lia. Qed.

(** A positive mantissa with at least the least exponent: [shr_fexp]
    drops the digits beyond the 53rd and nothing else. *)
Lemma shr_fexp_pos (M : positive) e l :
  -1074 <= e ->
  let n := Z.max (Zpos (digits2_pos M) - 53) 0 in
  shr_m (fst (shr_fexp prec emax (Zpos M) e l)) = Zpos M / 2 ^ n /\
  snd (shr_fexp prec emax (Zpos M) e l) = e + n.
Proof.
  intros He n. unfold shr_fexp, shr, fexp, SpecFloat.emin, prec, emax. simpl Zdigits2.
  destruct (Z.max (Zpos (digits2_pos M) + e - 53) (3 - 1024 - 53) - e) as [|p|p] eqn:Hn.
  - assert (n = 0) as -> by lia. simpl. rewrite shr_record_of_loc_m, Z.div_1_r. lia.
  - assert (n = Zpos p) as -> by lia. simpl fst. simpl snd.
    rewrite iter_shr_1_div by (rewrite shr_record_of_loc_m; lia).
    rewrite shr_record_of_loc_m. lia.
  - assert (n = 0) as -> by lia. simpl. rewrite shr_record_of_loc_m, Z.div_1_r. lia.
Qed.

(** The mantissa kept by [shr_fexp] is positive and below [2^53]; it is
    at least [2^52] when digits were dropped. *)
Lemma kept_mantissa_bounds (M : positive) :
  let n := Z.max (Zpos (digits2_pos M) - 53) 0 in
  0 < Zpos M / 2 ^ n < 2 ^ 53 /\ (0 < n -> 2 ^ 52 <= Zpos M / 2 ^ n).
Proof.
  intros n. pose proof (digits2_bounds M) as [Hlo Hhi].
  set (d := Zpos (digits2_pos M)) in *.
  destruct (Z.le_gt_cases d 53) as [Hd|Hd].
  - assert (n = 0) as -> by lia. rewrite Z.div_1_r. split; [|lia]. split; [lia|].
    eapply Z.lt_le_trans; [exact Hhi|]. apply pow2_le. lia.
  - assert (Hn : n = d - 53) by lia.
    assert (Hp : 0 < 2 ^ n) by (apply pow2_pos; lia).
    assert (Hge : 2 ^ 52 <= Zpos M / 2 ^ n).
    { apply Z.div_le_lower_bound; [lia|].
      rewrite Z.mul_comm, <- (pow2_split 52 n) by lia.
      replace (52 + n) with (d - 1) by lia. exact Hlo. }
    split; [|intros _; exact Hge]. split.
    + mantissa_bounds. lia.
    + apply Z.div_lt_upper_bound; [lia|].
      rewrite <- (pow2_split n 53) by lia. replace (n + 53) with d by lia. exact Hhi.
Qed.

(** Rounding a positive mantissa [M] at an exponent [e >= -1074] to
    binary64: [n] low digits are dropped, the kept mantissa [M / 2^n] is
    rounded to [m1], and a carry to [2^53] moves one more digit. *)
Lemma binary_round_aux_spec s (M : positive) e l :
  -1074 <= e ->
  exists (m1 n n2 : Z) (m' : positive),
    n = Z.max (Zpos (digits2_pos M) - 53) 0 /\
    Zpos M / 2 ^ n <= m1 <= Zpos M / 2 ^ n + 1 /\
    0 <= n2 <= 1 /\ m1 <= 2 ^ 53 /\ (n2 = 0 -> m1 < 2 ^ 53) /\
    (n2 = 1 -> m1 = 2 ^ 53) /\
    Zpos m' * 2 ^ n2 = m1 /\
    binary_round_aux prec emax s (Zpos M) e l =
      if e + n + n2 <=? 971 then S754_finite s m' (e + n + n2) else S754_infinity s.
Proof.
  intros He. unfold binary_round_aux.
  pose proof (shr_fexp_pos M e l He) as [Hm0 He'].
  pose proof (kept_mantissa_bounds M) as [Hk0 _].
  set (n := Z.max (Zpos (digits2_pos M) - 53) 0) in *.
  destruct (shr_fexp prec emax (Zpos M) e l) as [mrs' e']. simpl in Hm0, He'.
  pose proof (round_nearest_even_bounds (shr_m mrs') (loc_of_shr_record mrs')) as Hr.
  set (m1 := round_nearest_even (shr_m mrs') (loc_of_shr_record mrs')) in *.
  rewrite Hm0 in Hr.
  destruct m1 as [|P1|P1] eqn:Hm1; try lia.
  pose proof (shr_fexp_pos P1 e' loc_Exact ltac:(lia)) as [Hm2 He2].
  pose proof (kept_mantissa_bounds P1) as [Hk1 _].
  pose proof (digits2_bounds P1) as [Hlo1 Hhi1].
  set (n2 := Z.max (Zpos (digits2_pos P1) - 53) 0) in *.
  destruct (shr_fexp prec emax (Zpos P1) e' loc_Exact) as [mrs'' e'']. simpl in Hm2, He2.
  assert (Hd1 : Zpos (digits2_pos P1) <= 54).
  { destruct (Z.le_gt_cases (Zpos (digits2_pos P1)) 54) as [|Hgt]; [assumption|].
    pose proof (pow2_le 54 (Zpos (digits2_pos P1) - 1) ltac:(lia)) as Hle.
    change (2 ^ 54) with 18014398509481984 in Hle. mantissa_bounds. lia. }
  rewrite Hm2. change (emax - prec) with 971. rewrite He2, He'.
  destruct (Z.eq_dec (Zpos (digits2_pos P1)) 54) as [Hc|Hc].
  - (* carry: the rounded mantissa is 2^53 *)
    assert (Hn2 : n2 = 1) by lia. rewrite Hn2 in *.
    rewrite Hc in Hlo1. change (2 ^ (54 - 1)) with (2 ^ 53) in Hlo1.
    assert (HP1 : Zpos P1 = 2 ^ 53) by (mantissa_bounds; lia).
    rewrite HP1. change (2 ^ 53 / 2 ^ 1) with (Zpos 4503599627370496).
    exists (2 ^ 53), n, 1, 4503599627370496%positive.
    rewrite HP1 in Hr. repeat split; try lia; try reflexivity.
  - assert (Hn2 : n2 = 0) by lia. rewrite Hn2 in *.
    rewrite Z.div_1_r, Z.add_0_r.
    assert (HP1 : Zpos P1 < 2 ^ 53).
    { eapply Z.lt_le_trans; [exact Hhi1|]. apply pow2_le. lia. }
    exists (Zpos P1), n, 0, P1.
    repeat split; try lia. by rewrite Z.add_0_r.
Qed.

(** Aligning a mantissa to a lower exponent keeps the value. *)
Lemma iter_xO_pow m d : Zpos (Pos.iter xO m d) = Zpos m * 2 ^ Zpos d.
Proof.
  induction d as [|d IH] using Pos.peano_ind.
  - simpl. lia.
  - rewrite Pos.iter_succ, Pos2Z.inj_xO, IH, Pos2Z.inj_succ, Z.pow_succ_r by lia. lia.
Qed.

Lemma shl_align_spec m e e' :
  let r := shl_align m e e' in
  snd r = Z.min e e' /\ Zpos (fst r) = Zpos m * 2 ^ (e - snd r).
Proof.
  unfold shl_align. destruct (e' - e) as [|d|d] eqn:Hd; simpl.
  - rewrite Z.sub_diag. lia.
  - rewrite Z.sub_diag. lia.
  - rewrite iter_xO_pow. split; [lia|]. f_equal. f_equal. lia.
Qed.

(** Rounding a nonzero integer multiple of [2^e], [e >= -1074], gives a
    nonzero float of the same sign: no underflow to zero. *)
Lemma binary_round_sign s m e :
  -1074 <= e ->
  (exists m' e', binary_round prec emax s m e = S754_finite s m' e') \/
  binary_round prec emax s m e = S754_infinity s.
Proof.
  intros He. unfold binary_round.
  pose proof (shl_align_spec m e (fexp prec emax (Zpos (digits2_pos m) + e))) as [Hs _].
  destruct (shl_align m e (fexp prec emax (Zpos (digits2_pos m) + e))) as [mz ez].
  simpl in Hs.
  assert (Hez : -1074 <= ez).
  { rewrite Hs. unfold fexp, SpecFloat.emin, prec, emax. lia. }
  destruct (binary_round_aux_spec s mz ez loc_Exact Hez)
    as (m1 & n & n2 & m' & _ & _ & _ & _ & _ & _ & _ & Hr).
  rewrite Hr. destruct (ez + n + n2 <=? 971); [left; eauto | by right].
Qed.

(** ** Binary64: the sign of a difference *)

Lemma SFcompare_zero_l r :
  SFcompare (S754_zero false) r = option_map CompOpp (SFcompare r (S754_zero false)).
Proof. destruct r as [s|s| |s m e]; simpl; try reflexivity; by destruct s. Qed.

(** The difference of two binary64 values that are not NaN compares
    to zero as the values compare to each other; it is NaN only for
    two infinities of the same sign. *)
Lemma SFsub_sign x y :
  valid_binary x = true -> valid_binary y = true ->
  x <> S754_nan -> y <> S754_nan ->
  (SF64sub x y = S754_nan /\ exists s, x = S754_infinity s /\ y = S754_infinity s) \/
  SFcompare (SF64sub x y) (S754_zero false) = Some (SFrank x ?= SFrank y).
Proof.
  intros Hx Hy Hnx Hny.
  pose proof top_ulp_pos as HB. pose proof rank_infinity_eq as HI.
  destruct x as [sx|sx| |sx mx ex], y as [sy|sy| |sy my ey];
    try congruence; cbn [valid_binary] in Hx, Hy;
    try (pose proof (finite_rank_bounds _ _ Hx) as Hrx);
    try (pose proof (finite_rank_bounds _ _ Hy) as Hry); mantissa_bounds.
  9: {
    right. unfold SF64sub, SFsub.
    pose proof (shl_align_spec mx ex (Z.min ex ey)) as [Hsx Hvx].
    pose proof (shl_align_spec my ey (Z.min ex ey)) as [Hsy Hvy].
    apply bounded_inv in Hx as (Hex & _). apply bounded_inv in Hy as (Hey & _).
    set (ez := Z.min ex ey) in *.
    rewrite Hsx in Hvx. rewrite Hsy in Hvy.
    replace (Z.min ex ez) with ez in Hvx by lia.
    replace (Z.min ey ez) with ez in Hvy by lia.
    set (D := cond_Zopp sx (Zpos (fst (shl_align mx ex ez))) -
              cond_Zopp sy (Zpos (fst (shl_align my ey ez)))).
    assert (HD : D * 2 ^ (ez + 1074) = SFrank (S754_finite sx mx ex) - SFrank (S754_finite sy my ey)).
    { unfold D, SFrank. rewrite Hvx, Hvy.
      replace (ex + 1074) with ((ex - ez) + (ez + 1074)) by lia.
      replace (ey + 1074) with ((ey - ez) + (ez + 1074)) by lia.
      rewrite (pow2_split (ex - ez)), (pow2_split (ey - ez)) by lia.
      unfold cond_Zopp. destruct sx, sy; ring. }
    pose proof (pow2_pos (ez + 1074) ltac:(lia)) as Hp.
    clear Hrx Hry Hvx Hvy Hsx Hsy HB HI.
    generalize dependent (SFrank (S754_finite sx mx ex)).
    generalize dependent (SFrank (S754_finite sy my ey)). intros ry rx HD.
    unfold binary_normalize. destruct D as [|p|p] eqn:HDp.
    - cbv [SFcompare]. solve_compare.
    - destruct (binary_round_sign false p ez ltac:(lia)) as [(m' & e' & ->)| ->];
        cbv [SFcompare]; solve_compare.
    - destruct (binary_round_sign true p ez ltac:(lia)) as [(m' & e' & ->)| ->];
        cbv [SFcompare]; solve_compare. }
  all: unfold SF64sub, SFsub, SFrank, cond_Zopp.
  all: repeat match goal with b : bool |- _ => destruct b end.
  all: first [ left; split; [reflexivity | eexists; split; reflexivity]
             | right; cbv [SFcompare negb]; solve_compare ].
Qed.

(** ** Primitive floats through their ranks *)

Lemma SFcompare_refl x : x <> S754_nan -> SFcompare x x = Some Eq.
Proof.
  destruct x as [s|s| |s m e]; try congruence; intros _; simpl.
  - reflexivity.
  - by destruct s.
  - rewrite Z.compare_refl, Pos.compare_cont_refl. by destruct s.
Qed.

Lemma is_nan_spec x : is_nan x = false <-> Prim2SF x <> S754_nan.
Proof.
  unfold is_nan. rewrite FloatAxioms.eqb_spec. unfold SFeqb. split.
  - intros Hn Heq. rewrite Heq in Hn. discriminate.
  - intros Hn. by rewrite (SFcompare_refl _ Hn).
Qed.

Lemma ltb_rank x y :
  is_nan x = false -> is_nan y = false -> (x <? y)%float = (rank x <? rank y).
Proof.
  intros Hx%is_nan_spec Hy%is_nan_spec. rewrite FloatAxioms.ltb_spec. unfold SFltb, rank.
  rewrite (SFcompare_rank _ _ (Prim2SF_valid x) (Prim2SF_valid y) Hx Hy).
  unfold Z.ltb. by destruct (SFrank (Prim2SF x) ?= SFrank (Prim2SF y)).
Qed.

Lemma leb_rank x y :
  is_nan x = false -> is_nan y = false -> (x <=? y)%float = (rank x <=? rank y).
Proof.
  intros Hx%is_nan_spec Hy%is_nan_spec. rewrite FloatAxioms.leb_spec. unfold SFleb, rank.
  rewrite (SFcompare_rank _ _ (Prim2SF_valid x) (Prim2SF_valid y) Hx Hy).
  unfold Z.leb. by destruct (SFrank (Prim2SF x) ?= SFrank (Prim2SF y)).
Qed.

(** [0 < x - y] exactly when [y < x]. *)
Lemma sub_positive x y :
  is_nan x = false -> is_nan y = false ->
  (0 <? x - y)%float = (rank y <? rank x).
Proof.
  intros Hx%is_nan_spec Hy%is_nan_spec.
  rewrite FloatAxioms.ltb_spec, FloatAxioms.sub_spec. unfold SFltb.
  change (Prim2SF 0) with (S754_zero false). rewrite SFcompare_zero_l.
  destruct (SFsub_sign _ _ (Prim2SF_valid x) (Prim2SF_valid y) Hx Hy)
    as [(-> & s & Hsx & Hsy) | ->].
  - unfold rank. rewrite Hsx, Hsy. symmetry. apply Z.ltb_irrefl.
  - unfold rank, Z.ltb. rewrite (Z.compare_antisym (SFrank (Prim2SF x))).
    by destruct (SFrank (Prim2SF x) ?= SFrank (Prim2SF y)).
Qed.

(** [x - y <= 0] fails when [y < x]. *)
Lemma sub_not_le_zero x y :
  is_nan x = false -> is_nan y = false -> rank y < rank x ->
  (x - y <=? 0)%float = false.
Proof.
  intros Hx%is_nan_spec Hy%is_nan_spec Hlt.
  rewrite FloatAxioms.leb_spec, FloatAxioms.sub_spec. unfold SFleb.
  change (Prim2SF 0) with (S754_zero false).
  destruct (SFsub_sign _ _ (Prim2SF_valid x) (Prim2SF_valid y) Hx Hy)
    as [(-> & s & Hsx & Hsy) | ->].
  - reflexivity.
  - unfold rank in Hlt. apply Z.compare_gt_iff in Hlt. by rewrite Hlt.
Qed.

(** ** Binary64: rounding below the overflow threshold *)

(** Rounding keeps the value within a factor two (a crude bound, enough
    to locate a quotient); a value below the largest float does not
    overflow. *)
Lemma binary_round_aux_finite s (M : positive) e l :
  -1074 <= e <= 971 ->
  Zpos M * 2 ^ (e + 1074) < (2 ^ 53 - 1) * top_ulp ->
  exists m' e',
    binary_round_aux prec emax s (Zpos M) e l = S754_finite s m' e' /\
    e <= e' <= 971 /\
    Zpos M <= 2 * (Zpos m' * 2 ^ (e' - e)) /\
    Zpos m' * 2 ^ (e' - e) <= 2 * Zpos M.
Proof.
  intros He Hval.
  destruct (binary_round_aux_spec s M e l ltac:(lia))
    as (m1 & n & n2 & m' & Hn & Hm1 & Hn2 & Hm1le & Hm1lt & Hcarry & Hm' & Hr).
  pose proof (kept_mantissa_bounds M) as [Hk0 Hk1]. rewrite <- Hn in Hk0, Hk1.
  pose proof (digits2_bounds M) as [Hlo Hhi].
  set (d := Zpos (digits2_pos M)) in *.
  assert (Hn0 : 0 <= n) by lia.
  pose proof (pow2_pos n Hn0) as Hpn.
  pose proof (pow2_pos (e + 1074) ltac:(lia)) as Hpe.
  (* the kept mantissa m0 = M / 2^n *)
  pose proof (Z.div_mod (Zpos M) (2 ^ n) ltac:(lia)) as Hdiv.
  pose proof (Z.mod_pos_bound (Zpos M) (2 ^ n) Hpn) as Hmod.
  set (m0 := Zpos M / 2 ^ n) in *.
  assert (Hpn_le : 2 ^ n <= m0 * 2 ^ n).
  { assert (1 <= m0) by lia. nia. }
  (* no overflow *)
  assert (Hfin : e + n + n2 <= 971).
  { destruct (Z.le_gt_cases (e + n + n2) 971) as [|Hgt]; [assumption|exfalso].
    assert (Hne : e + n <= 971).
    { destruct (Z.eq_dec n 0) as [->|Hnz]; [lia|].
      assert (Hdn : d = n + 53) by lia.
      destruct (Z.le_gt_cases (e + n) 971) as [|Hgt']; [assumption|exfalso].
      pose proof (pow2_ge_top ((d - 1) + (e + 1074)) 53 ltac:(lia) ltac:(lia)) as H1.
      rewrite (pow2_split (d - 1) (e + 1074)) in H1 by lia.
      assert (H2 : 2 ^ (d - 1) * 2 ^ (e + 1074) <= Zpos M * 2 ^ (e + 1074)) by nia.
      pose proof top_ulp_pos. mantissa_bounds. lia. }
    assert (Hn2' : n2 = 1) by lia. assert (Hen : e + n = 971) by lia.
    assert (Hm1' : m1 = 2 ^ 53) by auto.
    (* then M reaches (2^53 - 1) * 2^(971 - e) *)
    assert (Hm0 : 2 ^ 53 - 1 <= m0) by lia.
    assert (H3 : (2 ^ 53 - 1) * 2 ^ n <= Zpos M) by nia.
    rewrite (top_ulp_split n (e + 1074)) in Hval by lia. nia. }
  apply Z.leb_le in Hfin. rewrite Hfin in Hr.
  apply Z.leb_le in Hfin.
  exists m', (e + n + n2). split; [exact Hr|]. split; [lia|].
  replace (e + n + n2 - e) with (n2 + n) by lia.
  assert (Hv : Zpos m' * 2 ^ (n2 + n) = m1 * 2 ^ n).
  { rewrite (pow2_split n2 n), Z.mul_assoc, Hm' by lia. reflexivity. }
  rewrite Hv. split; [|nia].
  (* M < (m0 + 1) 2^n <= 2 m0 2^n <= 2 m1 2^n *)
  assert (Zpos M < (m0 + 1) * 2 ^ n) by nia.
  assert (m0 * 2 ^ n <= m1 * 2 ^ n) by nia.
  nia.
Qed.

Lemma binary_round_finite s m e :
  -1074 <= e <= 971 ->
  Zpos m * 2 ^ (e + 1074) < (2 ^ 53 - 1) * top_ulp ->
  exists m' e',
    binary_round prec emax s m e = S754_finite s m' e' /\
    -1074 <= e' <= 971 /\
    Zpos m * 2 ^ (e + 1074) <= 2 * (Zpos m' * 2 ^ (e' + 1074)) /\
    Zpos m' * 2 ^ (e' + 1074) <= 2 * (Zpos m * 2 ^ (e + 1074)).
Proof.
  intros He Hval. unfold binary_round.
  pose proof (shl_align_spec m e (fexp prec emax (Zpos (digits2_pos m) + e))) as [Hs Hv].
  destruct (shl_align m e (fexp prec emax (Zpos (digits2_pos m) + e))) as [M e1].
  simpl in Hs, Hv.
  assert (He1 : -1074 <= e1 <= e).
  { rewrite Hs. unfold fexp, SpecFloat.emin, prec, emax. lia. }
  assert (Hsame : Zpos M * 2 ^ (e1 + 1074) = Zpos m * 2 ^ (e + 1074)).
  { rewrite Hv. replace (e + 1074) with ((e - e1) + (e1 + 1074)) by lia.
    rewrite (pow2_split (e - e1) (e1 + 1074)) by lia. ring. }
  destruct (binary_round_aux_finite s M e1 loc_Exact ltac:(lia) ltac:(lia))
    as (m' & e' & Hr & He' & Hlo & Hhi).
  exists m', e'. split; [exact Hr|]. split; [lia|].
  rewrite <- Hsame.
  replace (e' + 1074) with ((e' - e1) + (e1 + 1074)) by lia.
  rewrite (pow2_split (e' - e1) (e1 + 1074)) by lia.
  pose proof (pow2_pos (e1 + 1074) ltac:(lia)). nia.
Qed.

(** ** Binary64: the margin and the ratio of [calculateRoas] *)

(** For binary64 values [0 < c < p], the difference [p - c] is a
    positive float within a factor two of the exact difference. *)
Lemma SFsub_positive_finite mp ep mc ec :
  bounded prec emax mp ep = true -> bounded prec emax mc ec = true ->
  Zpos mc * 2 ^ (ec + 1074) < Zpos mp * 2 ^ (ep + 1074) ->
  exists mz ez,
    SF64sub (S754_finite false mp ep) (S754_finite false mc ec) = S754_finite false mz ez /\
    -1074 <= ez <= 971 /\
    Zpos mp * 2 ^ (ep + 1074) - Zpos mc * 2 ^ (ec + 1074) <= 2 * (Zpos mz * 2 ^ (ez + 1074)) /\
    Zpos mz * 2 ^ (ez + 1074) <= 2 * (Zpos mp * 2 ^ (ep + 1074) - Zpos mc * 2 ^ (ec + 1074)).
Proof.
  intros Hp Hc Hlt. unfold SF64sub, SFsub.
  pose proof (shl_align_spec mp ep (Z.min ep ec)) as [Hsp Hvp].
  pose proof (shl_align_spec mc ec (Z.min ep ec)) as [Hsc Hvc].
  pose proof (bounded_mantissa _ _ Hp) as (Hep & Hmp & _).
  pose proof (bounded_mantissa _ _ Hc) as (Hec & _ & _).
  set (e0 := Z.min ep ec) in *.
  rewrite Hsp in Hvp. rewrite Hsc in Hvc.
  replace (Z.min ep e0) with e0 in Hvp by lia.
  replace (Z.min ec e0) with e0 in Hvc by lia.
  unfold cond_Zopp. rewrite Hvp, Hvc.
  pose proof (pow2_pos (e0 + 1074) ltac:(lia)) as Hp0.
  assert (HD : (Zpos mp * 2 ^ (ep - e0) - Zpos mc * 2 ^ (ec - e0)) * 2 ^ (e0 + 1074)
               = Zpos mp * 2 ^ (ep + 1074) - Zpos mc * 2 ^ (ec + 1074)).
  { replace (ep + 1074) with ((ep - e0) + (e0 + 1074)) by lia.
    replace (ec + 1074) with ((ec - e0) + (e0 + 1074)) by lia.
    rewrite (pow2_split (ep - e0)), (pow2_split (ec - e0)) by lia. ring. }
  destruct (Zpos mp * 2 ^ (ep - e0) - Zpos mc * 2 ^ (ec - e0)) as [|D|D] eqn:HDeq;
    [lia | | lia].
  unfold binary_normalize.
  pose proof (finite_rank_bounds _ _ Hp) as [_ Hmax].
  destruct (binary_round_finite false D e0 ltac:(lia) ltac:(lia))
    as (mz & ez & Hr & Hez & Hlo & Hhi).
  exists mz, ez. rewrite <- HD. auto.
Qed.

(** Two binary64 values [0 < c < p] differ by at least [p / 2^54]. *)
Lemma close_difference mp ep mc ec :
  bounded prec emax mp ep = true -> bounded prec emax mc ec = true ->
  Zpos mc * 2 ^ (ec + 1074) < Zpos mp * 2 ^ (ep + 1074) ->
  Zpos mp * 2 ^ (ep + 1074) <=
    2 ^ 54 * (Zpos mp * 2 ^ (ep + 1074) - Zpos mc * 2 ^ (ec + 1074)).
Proof.
  intros Hp Hc Hlt.
  apply bounded_mantissa in Hp as (Hep & Hmp & Hnp).
  apply bounded_mantissa in Hc as (Hec & Hmc & Hnc).
  change (2 ^ 54) with 18014398509481984. mantissa_bounds.
  destruct (Z.lt_trichotomy ep ec) as [Hlt'|[->|Hgt]].
  - exfalso.
    replace (ec + 1074) with ((ec - ep) + (ep + 1074)) in Hlt by lia.
    rewrite (pow2_split (ec - ep) (ep + 1074)) in Hlt by lia.
    pose proof (pow2_pos (ep + 1074) ltac:(lia)).
    pose proof (pow2_le 1 (ec - ep) ltac:(lia)) as Hq. change (2 ^ 1) with 2 in Hq.
    assert (Zpos mp < Zpos mc * 2 ^ (ec - ep)) by (destruct Hnc; nia). nia.
  - pose proof (pow2_pos (ec + 1074) ltac:(lia)) as HB.
    set (B := 2 ^ (ec + 1074)) in *.
    assert (Zpos mc < Zpos mp) by nia.
    assert (B <= (Zpos mp - Zpos mc) * B) by nia.
    assert (Zpos mp * B <= 9007199254740992 * B) by nia.
    lia.
  - replace (ep + 1074) with ((ep - ec) + (ec + 1074)) in * by lia.
    rewrite (pow2_split (ep - ec) (ec + 1074)) in * by lia.
    pose proof (pow2_pos (ec + 1074) ltac:(lia)) as HB.
    set (B := 2 ^ (ec + 1074)) in *.
    assert (Hmp52 : 4503599627370496 <= Zpos mp) by (destruct Hnp; lia).
    destruct (Z.eq_dec (ep - ec) 1) as [Hk|Hk].
    + rewrite Hk in *. change (2 ^ 1) with 2 in *.
      assert (1 <= Zpos mp * 2 - Zpos mc) by nia. nia.
    + pose proof (pow2_le 2 (ep - ec) ltac:(lia)) as Hq. change (2 ^ 2) with 4 in Hq.
      set (K := 2 ^ (ep - ec)) in *.
      assert (2 * Zpos mc <= Zpos mp * K) by nia. nia.
Qed.

Lemma pow2_lt_inv a b : 0 <= b -> 2 ^ a < 2 ^ b -> a < b.
Proof.
  intros Hb Hlt. destruct (Z.lt_ge_cases a b) as [|Hge]; [assumption|exfalso].
  pose proof (pow2_le b a ltac:(lia)). lia.
Qed.

(** The quotient of two positive binary64 values whose ratio lies
    between 1/2 and [2^55] is a normal float between 1/4 and [2^57]. *)
Lemma SFdiv_close mp ep mz ez :
  bounded prec emax mp ep = true -> bounded prec emax mz ez = true ->
  Zpos mz * 2 ^ (ez + 1074) < 2 * (Zpos mp * 2 ^ (ep + 1074)) ->
  Zpos mp * 2 ^ (ep + 1074) <= 2 ^ 55 * (Zpos mz * 2 ^ (ez + 1074)) ->
  exists mq eq,
    SF64div (S754_finite false mp ep) (S754_finite false mz ez) = S754_finite false mq eq /\
    2 ^ 52 <= Zpos mq < 2 ^ 53 /\ -54 <= eq <= 4.
Proof.
  intros Hp Hz Hlo Hhi.
  pose proof (bounded_inv _ _ Hp) as (Hep & Hd1 & _).
  pose proof (bounded_inv _ _ Hz) as (Hez & Hd2 & _).
  pose proof (digits2_bounds mp) as [Hlo1 Hhi1].
  pose proof (digits2_bounds mz) as [Hlo2 Hhi2].
  unfold SF64div, SFdiv, SFdiv_core_binary. simpl Zdigits2. simpl xorb.
  set (d1 := Zpos (digits2_pos mp)) in *. set (d2 := Zpos (digits2_pos mz)) in *.
  assert (Hd1' : 1 <= d1) by (unfold d1; lia).
  assert (Hd2' : 1 <= d2) by (unfold d2; lia).
  pose proof (pow2_pos (ep + 1074) ltac:(lia)) as HBp.
  pose proof (pow2_pos (ez + 1074) ltac:(lia)) as HBz.
  (* the exponents of the two values are close *)
  assert (Hdlo : d2 + ez < d1 + ep + 2).
  { assert (Hx : 2 ^ ((d2 - 1) + (ez + 1074)) < 2 ^ ((1 + d1) + (ep + 1074))).
    { rewrite (pow2_split (d2 - 1)), (pow2_split (1 + d1)), (pow2_split 1 d1) by lia.
      change (2 ^ 1) with 2. nia. }
    apply pow2_lt_inv in Hx; lia. }
  assert (Hdhi : d1 + ep < d2 + ez + 56).
  { assert (Hx : 2 ^ ((d1 - 1) + (ep + 1074)) < 2 ^ ((55 + d2) + (ez + 1074))).
    { rewrite (pow2_split (d1 - 1)), (pow2_split (55 + d2)), (pow2_split 55 d2) by lia.
      pose proof (pow2_pos 55 ltac:(lia)). nia. }
    apply pow2_lt_inv in Hx; lia. }
  replace (Z.min (fexp prec emax (d1 + ep - (d2 + ez))) (ep - ez))
    with (d1 + ep - (d2 + ez) - 53)
    by (unfold fexp, SpecFloat.emin, prec, emax; lia).
  set (e' := d1 + ep - (d2 + ez) - 53) in *.
  destruct (ep - ez - e') as [|sh|sh] eqn:Hs; try lia.
  rewrite Z.shiftl_mul_pow2 by lia.
  assert (Hsh : Zpos sh = 53 - d1 + d2) by lia.
  pose proof (pow2_pos (Zpos sh) ltac:(lia)) as Hpsh.
  (* the integer quotient has 53 or 54 digits *)
  assert (Hnum_lo : 2 ^ 52 * Zpos mz <= Zpos mp * 2 ^ Zpos sh).
  { assert (H1 : 2 ^ 52 * 2 ^ d2 = 2 ^ (d1 - 1) * 2 ^ Zpos sh).
    { rewrite <- (pow2_split 52 d2), <- (pow2_split (d1 - 1) (Zpos sh)) by lia.
      f_equal. lia. }
    pose proof (pow2_pos 52 ltac:(lia)). nia. }
  assert (Hnum_hi : Zpos mp * 2 ^ Zpos sh < Zpos mz * 2 ^ 54).
  { assert (H1 : 2 ^ d1 * 2 ^ Zpos sh = 2 ^ (d2 - 1) * 2 ^ 54).
    { rewrite <- (pow2_split d1 (Zpos sh)), <- (pow2_split (d2 - 1) 54) by lia.
      f_equal. lia. }
    pose proof (pow2_pos 54 ltac:(lia)). nia. }
  destruct (Z.div_eucl (Zpos mp * 2 ^ Zpos sh) (Zpos mz)) as [q r] eqn:Hqr.
  assert (Hq : q = Zpos mp * 2 ^ Zpos sh / Zpos mz) by (unfold Z.div; by rewrite Hqr).
  assert (Hq_lo : 2 ^ 52 <= q).
  { rewrite Hq. apply Z.div_le_lower_bound; lia. }
  assert (Hq_hi : q < 2 ^ 54).
  { rewrite Hq. apply Z.div_lt_upper_bound; lia. }
  destruct q as [|Q|Q]; [mantissa_bounds; lia | | lia].
  destruct (binary_round_aux_spec false Q e' (new_location (Zpos mz) r) ltac:(lia))
    as (m1 & n & n2 & mq & Hn & Hm1 & Hn2 & Hm1le & Hm1lt & Hcarry & Hmq & Hr).
  pose proof (kept_mantissa_bounds Q) as [_ Hkept]. rewrite <- Hn in Hkept.
  pose proof (digits2_bounds Q) as [HloQ HhiQ].
  assert (HdQ : 53 <= Zpos (digits2_pos Q) <= 54).
  { split.
    - assert (Hx : 2 ^ 52 < 2 ^ Zpos (digits2_pos Q)) by lia.
      apply pow2_lt_inv in Hx; lia.
    - assert (Hx : 2 ^ (Zpos (digits2_pos Q) - 1) < 2 ^ 54) by lia.
      apply pow2_lt_inv in Hx; lia. }
  assert (Hm1_lo : 2 ^ 52 <= m1).
  { destruct (Z.eq_dec n 0) as [Hn0|Hn0].
    - rewrite Hn0, Z.div_1_r in Hm1. lia.
    - assert (2 ^ 52 <= Zpos Q / 2 ^ n) by (apply Hkept; lia). lia. }
  assert (Hfin : e' + n + n2 <=? 971 = true) by (apply Z.leb_le; lia).
  rewrite Hfin in Hr. exists mq, (e' + n + n2). split; [exact Hr|].
  split; [|lia].
  destruct (Z.eq_dec n2 0) as [Hz0|Hz0].
  - rewrite Hz0, Z.mul_1_r in Hmq. rewrite Hmq. split; [lia | auto].
  - assert (Hn21 : n2 = 1) by lia. rewrite Hn21 in Hmq.
    rewrite (Hcarry Hn21) in Hmq. change (2 ^ 1) with 2 in Hmq. mantissa_bounds. lia.
Qed.

(** ** Fixed-point output of a normal float between 1/4 and [2^57] *)

Lemma scaled_round_positive mq eq :
  2 ^ 52 <= Zpos mq < 2 ^ 53 -> -54 <= eq <= 4 ->
  ge_1e21 mq eq = false /\ 0 < scaled_round mq eq 2.
Proof.
  intros Hm He. unfold ge_1e21, scaled_round. change (10 ^ Z.of_nat 2) with 100.
  change (10 ^ 21) with 1000000000000000000000.
  destruct eq as [|k|k].
  - split; [apply Z.leb_gt|]; mantissa_bounds; lia.
  - pose proof (pow2_le (Zpos k) 4 ltac:(lia)) as Hk. change (2 ^ 4) with 16 in Hk.
    pose proof (pow2_pos (Zpos k) ltac:(lia)).
    split; [apply Z.leb_gt|]; mantissa_bounds; nia.
  - rewrite Pos2Z.inj_pow.
    pose proof (pow2_le (Zpos k) 54 ltac:(lia)) as Hk.
    change (2 ^ 54) with 18014398509481984 in Hk.
    pose proof (pow2_pos (Zpos k) ltac:(lia)).
    split; [apply Z.leb_gt; mantissa_bounds; nia|].
    apply Z.lt_le_trans with 1; [lia|].
    apply Z.div_le_lower_bound; mantissa_bounds; lia.
Qed.

(** [scaled_round] is rounding to the nearest integer, a tie going up:
    [n - 1/2 <= m * 2^e * 10^f < n + 1/2]. *)
Lemma scaled_round_nearest m e f :
  let n := scaled_round m e f in
  match e with
  | Zneg k =>
    (2 * n - 1) * 2 ^ Zpos k <= 2 * (Zpos m * 10 ^ Z.of_nat f) < (2 * n + 1) * 2 ^ Zpos k
  | _ => n = Zpos m * 10 ^ Z.of_nat f * 2 ^ e
  end.
Proof.
  unfold scaled_round. destruct e as [|k|k]; try reflexivity.
  rewrite Pos2Z.inj_pow.
  pose proof (pow2_pos (Zpos k) ltac:(lia)) as Hk.
  set (num := Zpos m * 10 ^ Z.of_nat f). set (den := 2 ^ Zpos k) in *.
  pose proof (Z.div_mod (2 * num + den) (2 * den) ltac:(lia)) as Hdiv.
  pose proof (Z.mod_pos_bound (2 * num + den) (2 * den) ltac:(lia)) as Hmod.
  nia.
Qed.

(** ** Primitive floats: positive finite values *)

Lemma ltb_true_not_nan x y :
  (x <? y)%float = true -> is_nan x = false /\ is_nan y = false.
Proof.
  rewrite FloatAxioms.ltb_spec, !is_nan_spec. unfold SFltb. intros Hlt.
  split; intros Hn; rewrite Hn in Hlt; [|destruct (Prim2SF x)]; discriminate.
Qed.

Lemma is_finite_rank x : is_finite x = true -> - rank_infinity < rank x < rank_infinity.
Proof.
  unfold is_finite, is_infinity.
  rewrite negb_true_iff, orb_false_iff, FloatAxioms.eqb_spec, FloatAxioms.abs_spec.
  intros [_ Hinf]. unfold rank. pose proof (Prim2SF_valid x) as Hv.
  pose proof top_ulp_pos as HB. pose proof rank_infinity_eq as HI.
  change (Prim2SF infinity) with (S754_infinity false) in Hinf.
  destruct (Prim2SF x) as [s|s| |s m e]; cbn [SFrank SFabs valid_binary] in *;
    try lia; try (by destruct s).
  pose proof (finite_rank_bounds _ _ Hv). mantissa_bounds.
  destruct s; unfold cond_Zopp; lia.
Qed.

Lemma positive_finite_form x :
  is_nan x = false -> 0 < rank x < rank_infinity ->
  exists m e,
    Prim2SF x = S754_finite false m e /\ bounded prec emax m e = true /\
    rank x = Zpos m * 2 ^ (e + 1074).
Proof.
  intros Hn%is_nan_spec Hr. unfold rank in *. pose proof (Prim2SF_valid x) as Hv.
  pose proof top_ulp_pos as HB. pose proof rank_infinity_eq as HI.
  destruct (Prim2SF x) as [s|s| |s m e]; cbn [SFrank valid_binary] in *;
    try lia; try congruence.
  - destruct s; unfold cond_Zopp in Hr; lia.
  - pose proof (finite_rank_bounds _ _ Hv). destruct s; unfold cond_Zopp in Hr; [lia|].
    by exists m, e.
Qed.

(** ** The projection of a snapshot *)

Section Projection.
Context `{Platform}.

Lemma sort_insert_sorted {A} (f : A -> Z) (cmp : A -> A -> float) x l :
  Forall (fun y => (0 <? cmp x y)%float = (f x <? f y)%Z) l ->
  StronglySorted (fun a b => (f b <= f a)%Z) l ->
  StronglySorted (fun a b => (f b <= f a)%Z) (sort_insert cmp x l).
Proof.
  induction l as [|y l IH]; intros Hcmp Hs; simpl.
  - repeat constructor.
  - inversion Hcmp as [|? ? Hy Hcmp']; subst.
    inversion Hs as [|? ? Hs' Hall]; subst.
    rewrite Hy. destruct (Z.ltb_spec (f x) (f y)) as [Hlt|Hge].
    + constructor; [by apply IH|].
      rewrite (sort_insert_perm cmp x l). constructor; [lia | exact Hall].
    + constructor; [exact Hs|]. constructor; [lia|].
      eapply Forall_impl; [exact Hall|]. simpl. intros z Hz. lia.
Qed.

Lemma sort_sorted {A} (f : A -> Z) (cmp : A -> A -> float) l :
  (forall x y, x ∈ l -> y ∈ l -> (0 <? cmp x y)%float = (f x <? f y)%Z) ->
  StronglySorted (fun a b => (f b <= f a)%Z) (sort cmp l).
Proof.
  induction l as [|x l IH]; intros Hcmp; [constructor|].
  unfold sort. simpl. apply sort_insert_sorted.
  - apply Forall_forall. intros y Hy. apply Hcmp; [by left|].
    right. by rewrite <- (sort_perm cmp l).
  - apply IH. intros a b Ha Hb. apply Hcmp; by right.
Qed.

Lemma sort_key_dated o :
  dated o ->
  sort_key o =
    match o !! "createdAt" with
    | Some (VNum x) => if truthy (VNum x) then x else 0%float
    | _ => 0%float
    end.
Proof.
  unfold dated, sort_key, createdAt_or_0, prop, js_or.
  destruct (o !! "createdAt") as [v|]; [|reflexivity]. cbn [default from_option id].
  destruct v as [| |b|x|s|l|m]; intros Ht;
    try reflexivity; try (rewrite Ht; reflexivity).
  by destruct (truthy (VNum x)).
Qed.

Lemma sort_key_not_nan o : dated o -> is_nan (sort_key o) = false.
Proof.
  intros Hd. rewrite (sort_key_dated o Hd).
  destruct (o !! "createdAt") as [[| | |x| | |]|]; try reflexivity.
  destruct (truthy (VNum x)) eqn:Ht; [|reflexivity].
  simpl in Ht. apply negb_true_iff, orb_false_iff in Ht. tauto.
Qed.

Lemma project_doc_dated d : dated d.2 -> dated (project_doc d).
Proof. unfold dated, project_doc. by rewrite lookup_insert_ne. Qed.

Lemma onSnapshot_products uid snapshot st :
  products (final (onSnapshot uid snapshot st)) = project snapshot.
Proof.
  unfold onSnapshot.
  destruct (decide (length (project snapshot) = 0)%nat); [|reflexivity].
  simpl. destruct (localStorage st !! LOCAL_STORAGE_KEY) as [s|]; [|reflexivity].
  destruct (negb (String.eqb s "")); [|reflexivity].
  destruct (JSON_parse s) as [v|]; [|reflexivity].
  destruct (as_array v) as [records|]; [|reflexivity].
  destruct (migrate uid records) as [cs [|]]; reflexivity.
Qed.

(** C3: after every snapshot the local collection is the projection of
    that snapshot, whatever it was before.  The projection holds, for
    each document, its body with [id] set to the storage key, in some
    order; when every [createdAt] is absent, a number or falsy, that
    order is descending in [createdAt], absent and falsy values
    counting as 0.  Documents created at 100, never, and 300 come out
    as 300, 100, never. *)
Theorem snapshot_projection :
  (forall uid snapshot st st',
     products (final (onSnapshot uid snapshot st)) = project snapshot /\
     products (final (onSnapshot uid snapshot st')) =
       products (final (onSnapshot uid snapshot st))) /\
  (forall snapshot, Permutation (project snapshot) (map project_doc snapshot)) /\
  (forall d : string * obj,
     project_doc d !! "id" = Some (VStr d.1) /\
     forall k, k <> "id" -> project_doc d !! k = d.2 !! k) /\
  (forall snapshot,
     Forall (fun d : string * obj => dated d.2) snapshot ->
     StronglySorted (fun a b => (sort_key b <=? sort_key a)%float = true)
       (project snapshot) /\
     Forall (fun a =>
       sort_key a =
         match a !! "createdAt" with
         | Some (VNum x) => if truthy (VNum x) then x else 0%float
         | _ => 0%float
         end) (project snapshot)) /\
  map (fun a => (a !! "id", a !! "createdAt")) (project sample_snapshot) =
    [(Some (VStr "c"), Some (VNum 300%float));
     (Some (VStr "a"), Some (VNum 100%float));
     (Some (VStr "b"), None)].
Proof.
  split; [|split; [|split; [|split]]].
  - intros uid snapshot st st'. by rewrite !onSnapshot_products.
  - intros snapshot. apply sort_perm.
  - intros d. unfold project_doc. split; [apply lookup_insert_eq|].
    intros k Hk. by apply lookup_insert_ne.
  - intros snapshot Hd.
    assert (Hall : Forall dated (map project_doc snapshot)).
    { apply Forall_fmap. eapply Forall_impl; [exact Hd|].
      intros d. apply project_doc_dated. }
    assert (Hall' : Forall dated (project snapshot)).
    { unfold project. by rewrite sort_perm. }
    split.
    + assert (Hs : StronglySorted (fun a b => (rank (sort_key b) <= rank (sort_key a))%Z)
                     (project snapshot)).
      { apply (sort_sorted (fun a => rank (sort_key a))). intros x y Hx Hy.
        rewrite Forall_forall in Hall. unfold byCreatedAt, js_sub.
        apply sub_positive; apply sort_key_not_nan; auto. }
      clear Hall Hd. induction Hs as [|a l Hs IH Ha]; [constructor|].
      inversion Hall' as [|? ? Hda Hdl]; subst.
      constructor; [by apply IH|].
      rewrite Forall_forall in Ha, Hdl. apply Forall_forall. intros b Hb.
      rewrite leb_rank by (apply sort_key_not_nan; auto).
      apply Z.leb_le. by apply Ha.
    + eapply Forall_impl; [exact Hall'|]. intros a. apply sort_key_dated.
  - vm_compute. reflexivity.
Qed.

End Projection.

(** ** [formatCurrency] *)

Section Currency.
Context `{Platform}.


End Currency.

(** ** [calculateRoas] *)

Section Roas.
Context `{Platform}.

(** For finite [p > c > 0]: the margin is positive, and the ratio is a
    normal float whose two-decimal rounding is positive. *)
Lemma roas_of_positive_margin p c :
  is_finite p = true -> (0 <? c)%float = true -> (c <? p)%float = true ->
  (p - c <=? 0)%float = false /\
  exists m e,
    Prim2SF (p / (p - c))%float = S754_finite false m e /\
    toFixed (p / (p - c))%float 2 = fixed_digits (scaled_round m e 2) 2 /\
    0 < scaled_round m e 2.
Proof.
  intros Hfin H0c Hcp.
  destruct (ltb_true_not_nan _ _ H0c) as [_ Hnc].
  destruct (ltb_true_not_nan _ _ Hcp) as [_ Hnp].
  rewrite ltb_rank in H0c, Hcp by (auto; reflexivity).
  apply Z.ltb_lt in H0c, Hcp. change (rank 0) with 0 in H0c.
  pose proof (is_finite_rank p Hfin) as Hp_fin.
  destruct (positive_finite_form c Hnc ltac:(lia)) as (mc & ec & Hc & Hbc & Hrc).
  destruct (positive_finite_form p Hnp ltac:(lia)) as (mp & ep & Hp & Hbp & Hrp).
  rewrite Hrc, Hrp in *.
  destruct (SFsub_positive_finite mp ep mc ec Hbp Hbc Hcp)
    as (mz & ez & Hsub & Hez & Hzlo & Hzhi).
  assert (Hmargin : Prim2SF (p - c) = S754_finite false mz ez).
  { by rewrite FloatAxioms.sub_spec, Hp, Hc. }
  assert (Hbz : bounded prec emax mz ez = true).
  { pose proof (Prim2SF_valid (p - c)) as Hv. by rewrite Hmargin in Hv. }
  split.
  { rewrite FloatAxioms.leb_spec, Hmargin. reflexivity. }
  pose proof (close_difference mp ep mc ec Hbp Hbc Hcp) as Hclose.
  destruct (SFdiv_close mp ep mz ez Hbp Hbz) as (mq & eq & Hdiv & Hmq & Heq).
  { lia. }
  { change (2 ^ 55) with (2 * 2 ^ 54). lia. }
  assert (Hratio : Prim2SF (p / (p - c)) = S754_finite false mq eq).
  { by rewrite FloatAxioms.div_spec, Hp, Hmargin. }
  destruct (scaled_round_positive mq eq Hmq Heq) as [Hsmall Hpos].
  exists mq, eq. split; [exact Hratio|]. split; [|exact Hpos].
  unfold toFixed. by rewrite Hratio, Hsmall.
Qed.

(** C1 (as amended): [calculateRoas] returns [null] exactly when one
    of the two inputs parses to NaN; when both parse and the margin
    [p - c] is at most 0 it returns the number 0, and only then; for
    finite [p > c > 0] it returns [p / (p - c)] printed with two
    decimals, which is the nearest number of hundredths (ties up) and
    is positive.  The three kinds of outcome are distinct. *)
Theorem calculateRoas_spec price cogs :
  let p := parseFloat price in
  let c := parseFloat cogs in
  (calculateRoas price cogs = RoasNull <-> is_nan p = true \/ is_nan c = true) /\
  (calculateRoas price cogs = RoasZero <->
     is_nan p = false /\ is_nan c = false /\ (p - c <=? 0)%float = true) /\
  (is_finite p = true -> (0 <? c)%float = true -> (c <? p)%float = true ->
   exists m e,
     Prim2SF (p / (p - c))%float = S754_finite false m e /\
     calculateRoas price cogs = RoasFixed (fixed_digits (scaled_round m e 2) 2) /\
     0 < scaled_round m e 2) /\
  (forall s, RoasNull <> RoasZero /\ RoasNull <> RoasFixed s /\ RoasZero <> RoasFixed s).
Proof.
  intros p c. unfold calculateRoas. fold p c.
  split; [|split; [|split]].
  - destruct (is_nan p), (is_nan c); simpl; try (split; [auto | reflexivity]).
    split; [|intros [|]; discriminate].
    destruct (p - c <=? 0)%float; discriminate.
  - destruct (is_nan p), (is_nan c); simpl;
      try (split; [discriminate | intros (? & ? & ?); discriminate]).
    destruct (p - c <=? 0)%float; split; try discriminate; auto.
    intros (_ & _ & ?). discriminate.
  - intros Hfin H0c Hcp.
    destruct (ltb_true_not_nan _ _ Hcp) as [Hnc Hnp].
    destruct (roas_of_positive_margin p c Hfin H0c Hcp) as (Hm & m & e & Hr & Hfix & Hpos).
    exists m, e. rewrite Hnp, Hnc, Hm. simpl. rewrite Hfix. auto.
  - intros s. repeat split; discriminate.
Qed.

End Roas.

(** * Instances on the sample data *)

Lemma mutation_of_unknown_product_is_noop_witness :
  (forall compIndex field v,
      @handleUpdateCompetitor sample_platform "p9" compIndex field v sample_state
      = done sample_state []) /\
  (forall newId, @handleAddOtherLink sample_platform "p9" newId sample_state
                 = done sample_state []) /\
  (forall linkId field v,
      @handleUpdateOtherLink sample_platform "p9" linkId field v sample_state
      = done sample_state []) /\
  (forall linkId, @handleDeleteOtherLink sample_platform "p9" linkId sample_state
                  = done sample_state []).
Proof.
  apply (@mutation_of_unknown_product_is_noop sample_platform "p9" sample_state).
  intros p Hp. simpl in Hp.
  apply elem_of_cons in Hp as [->|Hp]; [vm_compute; discriminate|].
  apply elem_of_cons in Hp as [->|Hp]; [vm_compute; discriminate|].
  by apply elem_of_nil in Hp.
Defined.

(** C4, as stated, fails: with "p1" selected, deleting "p2" clears the
    selection. *)
Lemma delete_of_unselected_product_clears_selection :
  selectedId sample_state = Some "p1" /\
  "p2" <> "p1" /\
  selectedId (final (@handleDeleteProduct sample_platform "p2" true sample_state))
    <> selectedId sample_state.
Proof. repeat split; vm_compute; discriminate. Qed.

Lemma update_competitor_frame_witness :
  exists newCompetitors,
    @handleUpdateCompetitor sample_platform "p1" 1 "brand" (VStr "acme") sample_state =
      fire (@handleUpdateProduct sample_platform "p1" "competitors" (VArr newCompetitors)
              sample_state) /\
    length newCompetitors = 3%nat /\
    (forall j, j <> 1%nat ->
       newCompetitors !! j =
       [sample_competitor "x"; sample_competitor "y"; sample_competitor "z"] !! j) /\
    exists c,
      newCompetitors !! 1%nat = Some (VObj c) /\
      c !! "brand" = Some (VStr "acme") /\
      (forall g, g <> "brand" ->
         c !! g = object_spread (sample_competitor "y") !! g) /\
      (forall o, Some (sample_competitor "y") = Some (VObj o) ->
         c = <["brand" := VStr "acme"]> o).
Proof.
  apply (@update_competitor_frame sample_platform "p1" 1 "brand" (VStr "acme")
           sample_state "u1" widget
           [sample_competitor "x"; sample_competitor "y"; sample_competitor "z"]).
  - reflexivity.
  - vm_compute. reflexivity.
  - vm_compute. reflexivity.
  - simpl. lia.
Defined.

Lemma delete_link_frame_witness :
  exists newLinks,
    @handleDeleteOtherLink sample_platform "p1" "l2" sample_state =
      fire (@handleUpdateProduct sample_platform "p1" "otherLinks" (VArr newLinks)
              sample_state) /\
    newLinks = List.filter (fun l => negb (has_link_id "l2" l))
                 [sample_link "l1"; sample_link "l2"; sample_link "l3"] /\
    sublist newLinks [sample_link "l1"; sample_link "l2"; sample_link "l3"] /\
    (forall l, l ∈ newLinks <->
       l ∈ [sample_link "l1"; sample_link "l2"; sample_link "l3"] /\
       get l "id" <> Some (VStr "l2")).
Proof.
  apply (@delete_link_frame sample_platform "p1" "l2" sample_state "u1" widget).
  - reflexivity.
  - vm_compute. reflexivity.
  - vm_compute. reflexivity.
  - repeat constructor; vm_compute; eauto.
Defined.

(** Deleting the second of three links keeps the first and the third,
    in that order. *)
Example delete_second_of_three_links :
  List.filter (fun l => negb (has_link_id "l2" l))
    [sample_link "l1"; sample_link "l2"; sample_link "l3"]
  = [sample_link "l1"; sample_link "l3"].
Proof. vm_compute. reflexivity. Qed.

Lemma absent_link_id_keeps_links_witness :
  (forall field v,
      @handleUpdateOtherLink sample_platform "p1" "l9" field v sample_state =
        fire (@handleUpdateProduct sample_platform "p1" "otherLinks"
                (VArr [sample_link "l1"; sample_link "l2"; sample_link "l3"]) sample_state)) /\
  @handleDeleteOtherLink sample_platform "p1" "l9" sample_state =
    fire (@handleUpdateProduct sample_platform "p1" "otherLinks"
            (VArr [sample_link "l1"; sample_link "l2"; sample_link "l3"]) sample_state).
Proof.
  apply (@absent_link_id_keeps_links sample_platform "p1" "l9" sample_state "u1" widget).
  - reflexivity.
  - vm_compute. reflexivity.
  - vm_compute. reflexivity.
  - repeat constructor; eexists; (split; [vm_compute; reflexivity | discriminate]).
Defined.

(** C7, as stated, fails on its own example: "pro" occurs in
    "approved", so the query "pro" also selects "Gadget". *)
Lemma query_pro_also_selects_gadget :
  filteredProducts (mkState None [widget; gadget] None "pro" false ∅) <> Some [widget].
Proof. vm_compute. discriminate. Qed.

Lemma filter_spec_witness :
  exists shown,
    filteredProducts sample_state = Some shown /\
    shown = List.filter (name_or_status_matches "") [widget; gadget] /\
    sublist shown [widget; gadget] /\
    (forall p, p ∈ shown <->
       p ∈ [widget; gadget] /\
       exists name status,
         prop p "name" = VStr name /\ prop p "status" = VStr status /\
         (occurs_in (toLowerCase "") (toLowerCase name) \/
          occurs_in (toLowerCase "") (toLowerCase status))) /\
    ("" = "" -> shown = [widget; gadget]).
Proof.
  apply (proj1 filter_spec sample_state).
  repeat constructor; eexists; eexists; (split; vm_compute; reflexivity).
Defined.

(** The migration scenario: an empty snapshot and a cache of two
    records; both are written under their own ids and the cache is
    gone. *)
Lemma migration_spec_witness :
  let r := @onSnapshot sample_platform "u1" [] cached_state in
  threw r = false /\
  calls r = migration_writes sample_refs sample_records /\
  localStorage (final r) = delete LOCAL_STORAGE_KEY (localStorage cached_state) /\
  (forall oks remote,
     localStorage (@settle sample_platform r oks remote).1 !! LOCAL_STORAGE_KEY = None) /\
  (NoDup sample_refs ->
   forall remote,
     Forall2 (fun prod ref =>
       (@settle sample_platform r (map (fun _ => true) (calls r)) remote).2 !! ref = Some prod)
       sample_records sample_refs).
Proof.
  apply (proj2 (@migration_spec sample_platform "u1" [] cached_state)
           sample_cache sample_records sample_refs).
  - reflexivity.
  - vm_compute. reflexivity.
  - vm_compute. discriminate.
  - vm_compute. reflexivity.
  - repeat constructor; eexists; (repeat split; vm_compute; reflexivity).
Defined.

Lemma snapshot_projection_witness :
  StronglySorted
    (fun a b => (@sort_key sample_platform b <=? @sort_key sample_platform a)%float = true)
    (@project sample_platform sample_snapshot) /\
  Forall (fun a =>
    @sort_key sample_platform a =
      match a !! "createdAt" with
      | Some (VNum x) => if truthy (VNum x) then x else 0%float
      | _ => 0%float
      end) (@project sample_platform sample_snapshot).
Proof.
  apply (proj1 (proj2 (proj2 (proj2 (@snapshot_projection sample_platform))))
           sample_snapshot).
  repeat constructor; vm_compute; reflexivity.
Defined.


(** C1, as stated, fails for an infinite price: "Infinity" parses,
    [Infinity > 1 > 0], the margin is infinite and the ratio is NaN. *)
Lemma roas_of_infinite_price_is_not_positive :
  let p := @parseFloat sample_platform (VStr "Infinity") in
  let c := @parseFloat sample_platform (VStr "1") in
  is_nan p = false /\ (0 <? c)%float = true /\ (c <? p)%float = true /\
  @calculateRoas sample_platform (VStr "Infinity") (VStr "1") = RoasFixed "NaN".
Proof. repeat split; vm_compute; reflexivity. Qed.

Lemma calculateRoas_spec_witness :
  exists m e,
    Prim2SF (20 / (20 - 10))%float = S754_finite false m e /\
    @calculateRoas sample_platform (VStr "20") (VStr "10")
      = RoasFixed (fixed_digits (scaled_round m e 2) 2) /\
    0 < scaled_round m e 2.
Proof.
  apply (proj1 (proj2 (proj2 (@calculateRoas_spec sample_platform (VStr "20") (VStr "10")))));
    vm_compute; reflexivity.
Defined.

(** A price of 20 against a cost of 10 breaks even at "2.00". *)
Example roas_20_10 :
  @calculateRoas sample_platform (VStr "20") (VStr "10") = RoasFixed "2.00" /\
  @calculateRoas sample_platform (VStr "10") (VStr "10") = RoasZero /\
  @calculateRoas sample_platform (VStr "") (VStr "10") = RoasNull.
Proof. repeat split; vm_compute; reflexivity. Qed.

(** * Further properties *)

(** ** What a snapshot leaves in the local collection *)

Lemma find_unique {A} (g : A -> bool) (x : A) (l : list A) :
  x ∈ l -> g x = true -> (forall y, y ∈ l -> g y = true -> y = x) ->
  List.find g l = Some x.
Proof.
  induction l as [|y l IH]; intros Hin Hx Huniq; [by apply elem_of_nil in Hin|].
  simpl. destruct (g y) eqn:Hy.
  - f_equal. apply Huniq; [by left | exact Hy].
  - apply IH; [|exact Hx|].
    + apply elem_of_cons in Hin as [->|Hin]; [congruence | exact Hin].
    + intros z Hz. apply Huniq. by right.
Qed.

Lemma project_doc_id d : prop (project_doc d) "id" = VStr d.1.
Proof. unfold prop, project_doc. by rewrite lookup_insert_eq. Qed.

Lemma NoDup_fst_inj {A B} (l : list (A * B)) x y :
  NoDup (map fst l) -> x ∈ l -> y ∈ l -> x.1 = y.1 -> x = y.
Proof.
  induction l as [|z l IH]; intros Hnd Hx Hy Heq; [by apply elem_of_nil in Hx|].
  simpl in Hnd. apply NoDup_cons in Hnd as [Hz Hnd].
  apply elem_of_cons in Hx as [->|Hx]; apply elem_of_cons in Hy as [->|Hy]; auto.
  - exfalso. apply Hz. rewrite Heq. apply list_elem_of_fmap. by exists y.
  - exfalso. apply Hz. rewrite <- Heq. apply list_elem_of_fmap. by exists x.
Qed.

Section SnapshotState.
Context `{Platform}.

Lemma elem_of_project p snapshot :
  p ∈ project snapshot <-> exists d, d ∈ snapshot /\ p = project_doc d.
Proof.
  unfold project. rewrite (sort_perm byCreatedAt (map project_doc snapshot)).
  rewrite list_elem_of_fmap. split; intros (d & H1 & H2); exists d; auto.
Qed.

Lemma find_in_snapshot uid snapshot st k body :
  NoDup (map fst snapshot) -> (k, body) ∈ snapshot ->
  find_product k (final (onSnapshot uid snapshot st)) = Some (project_doc (k, body)).
Proof.
  intros Hnd Hin. unfold find_product. rewrite onSnapshot_products. apply find_unique.
  - apply elem_of_project. by exists (k, body).
  - rewrite project_doc_id. simpl. apply String.eqb_refl.
  - intros p (d & Hd & ->)%elem_of_project Hg.
    rewrite project_doc_id in Hg. simpl in Hg. apply String.eqb_eq in Hg.
    f_equal. by apply (NoDup_fst_inj snapshot).
Qed.

Lemma find_not_in_snapshot uid snapshot st k :
  k ∉ map fst snapshot -> find_product k (final (onSnapshot uid snapshot st)) = None.
Proof.
  intros Hk. unfold find_product. rewrite onSnapshot_products.
  apply find_none_iff, Forall_forall.
  intros p (d & Hd & ->)%elem_of_project.
  rewrite project_doc_id. simpl. apply String.eqb_neq. intros Heq.
  apply Hk. rewrite <- Heq. apply list_elem_of_fmap. by exists d.
Qed.

Lemma onSnapshot_selectedId uid snapshot st :
  selectedId (final (onSnapshot uid snapshot st)) = selectedId st.
Proof.
  unfold onSnapshot.
  destruct (decide (length (project snapshot) = 0)%nat); [|reflexivity].
  simpl. destruct (localStorage st !! LOCAL_STORAGE_KEY) as [s|]; [|reflexivity].
  destruct (negb (String.eqb s "")); [|reflexivity].
  destruct (JSON_parse s) as [v|]; [|reflexivity].
  destruct (as_array v) as [records|]; [|reflexivity].
  destruct (migrate uid records) as [cs [|]]; reflexivity.
Qed.

(** X1: after a snapshot whose storage keys are distinct, looking a
    product up by a key of the snapshot finds the record projected from
    the document stored under that key, whatever [id] the body of the
    document, or of any other document, carries; a key that is not in
    the snapshot finds nothing. *)
Theorem lookup_after_snapshot uid snapshot st :
  NoDup (map fst snapshot) ->
  (forall k body,
     (k, body) ∈ snapshot ->
     find_product k (final (onSnapshot uid snapshot st)) = Some (project_doc (k, body))) /\
  (forall k,
     k ∉ map fst snapshot ->
     find_product k (final (onSnapshot uid snapshot st)) = None).
Proof.
  intros Hnd. split.
  - intros k body. by apply find_in_snapshot.
  - intros k. apply find_not_in_snapshot.
Qed.

(** X2: after every snapshot the local collection has one record per
    document, each with a string [id] that is a storage key of the
    snapshot; distinct keys give distinct ids. *)
Theorem products_after_snapshot uid snapshot st :
  let ps := products (final (onSnapshot uid snapshot st)) in
  length ps = length snapshot /\
  Forall (fun p => exists k, prop p "id" = VStr k /\ k ∈ map fst snapshot) ps /\
  (NoDup (map fst snapshot) -> NoDup (map (fun p => prop p "id") ps)).
Proof.
  intros ps. subst ps. rewrite onSnapshot_products.
  pose proof (sort_perm byCreatedAt (map project_doc snapshot)) as Hperm.
  fold (project snapshot) in Hperm. split; [|split].
  - rewrite Hperm. apply length_map.
  - apply Forall_forall. intros p (d & Hd & ->)%elem_of_project.
    exists d.1. split; [apply project_doc_id|]. apply list_elem_of_fmap. by exists d.
  - intros Hnd.
    assert (Hp2 : map (fun p => prop p "id") (project snapshot)
                  ≡ₚ map (fun p => prop p "id") (map project_doc snapshot))
      by (apply Permutation_map; exact Hperm).
    rewrite Hp2, List.map_map.
    rewrite (List.map_ext _ (fun d => VStr d.1)) by (intros d; apply project_doc_id).
    rewrite <- (List.map_map fst VStr).
    assert (Hinj : Inj (=) (=) VStr) by (intros a b Hab; by inversion Hab).
    by apply (NoDup_fmap_2 VStr).
Qed.

(** X3: a snapshot never touches the selection.  When the selected
    product is no longer among the documents, [selectedId] keeps its
    value but no product is selected any more. *)
Theorem stale_selection uid snapshot st i :
  selectedId st = Some i ->
  i ∉ map fst snapshot ->
  selectedId (final (onSnapshot uid snapshot st)) = Some i /\
  selectedProduct (final (onSnapshot uid snapshot st)) = None.
Proof.
  intros Hsel Hi. rewrite onSnapshot_selectedId. split; [exact Hsel|].
  unfold selectedProduct. rewrite onSnapshot_selectedId, Hsel.
  by apply find_not_in_snapshot.
Qed.

End SnapshotState.

(** ** Ties in the snapshot order *)

Lemma eqb_rank x y :
  is_nan x = false -> is_nan y = false -> (x =? y)%float = (rank x =? rank y)%Z.
Proof.
  intros Hx%is_nan_spec Hy%is_nan_spec. rewrite FloatAxioms.eqb_spec. unfold SFeqb, rank.
  rewrite (SFcompare_rank _ _ (Prim2SF_valid x) (Prim2SF_valid y) Hx Hy).
  by rewrite Z.eqb_compare.
Qed.

Lemma sort_insert_stable {A} (f : A -> Z) (cmp : A -> A -> float) (k : Z) x l :
  Forall (fun y => (0 <? cmp x y)%float = (f x <? f y)%Z) l ->
  List.filter (fun a => (f a =? k)%Z) (sort_insert cmp x l) =
  List.filter (fun a => (f a =? k)%Z) (x :: l).
Proof.
  induction l as [|y l IH]; intros Hcmp; [reflexivity|].
  inversion Hcmp as [|? ? Hy Hcmp']; subst. cbn [sort_insert]. rewrite Hy.
  destruct (Z.ltb_spec (f x) (f y)) as [Hlt|Hge]; [|reflexivity].
  cbn [List.filter]. rewrite (IH Hcmp'). cbn [List.filter].
  destruct (Z.eqb_spec (f x) k), (Z.eqb_spec (f y) k); try reflexivity. lia.
Qed.

Lemma sort_stable {A} (f : A -> Z) (cmp : A -> A -> float) (k : Z) l :
  (forall x y, x ∈ l -> y ∈ l -> (0 <? cmp x y)%float = (f x <? f y)%Z) ->
  List.filter (fun a => (f a =? k)%Z) (sort cmp l) = List.filter (fun a => (f a =? k)%Z) l.
Proof.
  induction l as [|x l IH]; intros Hcmp; [reflexivity|].
  unfold sort. cbn [foldr]. rewrite sort_insert_stable.
  - cbn [List.filter]. fold (sort cmp l). rewrite IH; [reflexivity|].
    intros a b Ha Hb. apply Hcmp; by right.
  - apply Forall_forall. intros y Hy. apply Hcmp; [by left|].
    right. by rewrite <- (sort_perm cmp l).
Qed.

Section Ties.
Context `{Platform}.

(** X4: documents whose [createdAt] is absent, a number or falsy and
    that have the same ordering number (so all those without a
    creation time) stay in the order of the snapshot. *)
Theorem snapshot_order_is_stable snapshot t :
  Forall (fun d : string * obj => dated d.2) snapshot ->
  is_nan t = false ->
  List.filter (fun a => (sort_key a =? t)%float) (project snapshot) =
  List.filter (fun a => (sort_key a =? t)%float) (map project_doc snapshot).
Proof.
  intros Hd Ht.
  assert (Hall : Forall dated (map project_doc snapshot)).
  { apply Forall_fmap. eapply Forall_impl; [exact Hd|]. intros d. apply project_doc_dated. }
  assert (Hall' : Forall dated (project snapshot)).
  { unfold project. by rewrite sort_perm. }
  rewrite Forall_forall in Hall, Hall'.
  rewrite (List.filter_ext_in _ (fun a => (rank (sort_key a) =? rank t)%Z) (project snapshot)).
  2: { intros a Ha%list_elem_of_In. apply eqb_rank; [apply sort_key_not_nan; auto | exact Ht]. }
  rewrite (List.filter_ext_in _ (fun a => (rank (sort_key a) =? rank t)%Z)
             (map project_doc snapshot)).
  2: { intros a Ha%list_elem_of_In. apply eqb_rank; [apply sort_key_not_nan; auto | exact Ht]. }
  apply (sort_stable (fun a => rank (sort_key a))). intros x y Hx Hy.
  unfold byCreatedAt, js_sub. apply sub_positive; apply sort_key_not_nan; auto.
Qed.

End Ties.

(** ** Migration: failures and repetition *)

Section MigrationEdges.
Context `{Platform}.

(** X5: when the callback ends by an exception (the cached text does
    not decode, is not an array, or a record is refused), local
    storage is exactly what it was: the cache is kept, while the
    collection has been replaced and the loading flag cleared. *)
Theorem failed_migration_keeps_cache uid snapshot st :
  threw (onSnapshot uid snapshot st) = true ->
  localStorage (final (onSnapshot uid snapshot st)) = localStorage st /\
  loading (final (onSnapshot uid snapshot st)) = false /\
  snapshot = [] /\
  exists savedLocal,
    localStorage st !! LOCAL_STORAGE_KEY = Some savedLocal /\ savedLocal <> "".
Proof.
  unfold onSnapshot.
  destruct (decide (length (project snapshot) = 0)%nat) as [Hlen|]; [|discriminate].
  apply length_zero_iff_nil, project_nil in Hlen.
  simpl. destruct (localStorage st !! LOCAL_STORAGE_KEY) as [s|] eqn:Hs; [|discriminate].
  destruct (String.eqb s "") eqn:Hne; [discriminate|]. simpl.
  apply String.eqb_neq in Hne.
  destruct (JSON_parse s) as [v|]; [|intros _; eauto 6].
  destruct (as_array v) as [records|]; [|intros _; eauto 6].
  destruct (migrate uid records) as [cs [|]]; [intros _; eauto 6 | discriminate].
Qed.

Lemma migrate_app uid good refs rest :
  Forall2 (fun prod ref =>
    exists id, get prod "id" = Some id /\ doc uid id = Some ref /\ data_ok prod = true)
    good refs ->
  migrate uid (good ++ rest) =
    ((migration_writes refs good ++ (migrate uid rest).1)%list, (migrate uid rest).2).
Proof.
  induction 1 as [|prod ref good refs (id & Hid & Hdoc & Hok) _ IH]; simpl.
  - by destruct (migrate uid rest).
  - rewrite Hid, Hdoc, Hok, IH. reflexivity.
Qed.

(** X6: the migration stops at the first record that is refused (no
    readable [id], a reference the library rejects, or a payload it
    rejects): the records before it are written, in order, the records
    after it are not, and the callback ends by an exception. *)
Theorem migration_stops_at_refused_record uid st savedLocal good refs bad rest :
  localStorage st !! LOCAL_STORAGE_KEY = Some savedLocal ->
  savedLocal <> "" ->
  JSON_parse savedLocal = Some (VArr (good ++ bad :: rest)) ->
  Forall2 (fun prod ref =>
    exists id, get prod "id" = Some id /\ doc uid id = Some ref /\ data_ok prod = true)
    good refs ->
  (get bad "id" = None \/
   (exists id, get bad "id" = Some id /\ (doc uid id = None \/ data_ok bad = false))) ->
  calls (onSnapshot uid [] st) = migration_writes refs good /\
  threw (onSnapshot uid [] st) = true.
Proof.
  intros Hs Hne Hparse Hgood Hbad.
  unfold onSnapshot. simpl. rewrite Hs. simpl.
  apply String.eqb_neq in Hne. rewrite Hne. simpl. rewrite Hparse. simpl.
  rewrite (migrate_app uid good refs (bad :: rest) Hgood).
  assert (Hstop : migrate uid (bad :: rest) = ([], true)).
  { simpl. destruct Hbad as [->|(id & -> & [->| Hd])]; [reflexivity..|].
    destruct (doc uid id); [by rewrite Hd | reflexivity]. }
  rewrite Hstop. simpl. by rewrite app_nil_r.
Qed.


End MigrationEdges.

(** ** Handlers: edges, round trips and what they leave alone *)

Lemma mapM'_app {A B} (f : A -> option B) l1 l2 r1 r2 :
  mapM' f l1 = Some r1 -> mapM' f l2 = Some r2 ->
  mapM' f (l1 ++ l2)%list = Some (r1 ++ r2)%list.
Proof.
  revert r1. induction l1 as [|x l1 IH]; intros r1; simpl.
  - intros [= <-]. tauto.
  - destruct (f x) as [y|]; [|discriminate].
    destruct (mapM' f l1) as [r|]; [|discriminate].
    intros [= <-] H2. by rewrite (IH r eq_refl H2).
Qed.

Lemma filterM_app {A} (f : A -> option bool) l1 l2 r1 r2 :
  filterM f l1 = Some r1 -> filterM f l2 = Some r2 ->
  filterM f (l1 ++ l2)%list = Some (r1 ++ r2)%list.
Proof.
  revert r1. induction l1 as [|x l1 IH]; intros r1; simpl.
  - intros [= <-]. tauto.
  - destruct (f x) as [b|]; [|discriminate].
    destruct (filterM f l1) as [r|]; [|discriminate].
    intros [= <-] H2. rewrite (IH r eq_refl H2). by destruct b.
Qed.

Lemma mapM'_stops {A B} (f : A -> option B) l :
  Exists (fun x => f x = None) l -> mapM' f l = None.
Proof.
  induction 1 as [x l Hx|x l _ IH]; simpl.
  - by rewrite Hx.
  - rewrite IH. by destruct (f x).
Qed.

Lemma filterM_stops {A} (f : A -> option bool) l :
  Exists (fun x => f x = None) l -> filterM f l = None.
Proof.
  induction 1 as [x l Hx|x l _ IH]; simpl.
  - by rewrite Hx.
  - rewrite IH. by destruct (f x).
Qed.

Lemma mapM'_lookup {A B} (f : A -> option B) l r :
  mapM' f l = Some r ->
  length r = length l /\ forall j x, l !! j = Some x -> exists y, f x = Some y /\ r !! j = Some y.
Proof.
  revert r. induction l as [|x l IH]; intros r; simpl.
  - intros [= <-]. split; [reflexivity|]. intros j y Hj. by destruct j.
  - destruct (f x) as [y|] eqn:Hy; [|discriminate].
    destruct (mapM' f l) as [r'|]; [|discriminate].
    intros [= <-]. destruct (IH r' eq_refl) as [Hlen Hat]. split; [simpl; lia|].
    intros [|j] z Hj; simpl in *.
    + injection Hj as <-. by exists y.
    + by apply Hat.
Qed.

Lemma new_link_id newId :
  prop (<["url" := VStr ""]> (<["title" := VStr ""]> {[ "id" := VStr newId ]})) "id" =
  VStr newId.
Proof.
  unfold prop. rewrite lookup_insert_ne by done. rewrite lookup_insert_ne by done.
  by rewrite lookup_singleton_eq.
Qed.

Section HandlerEdges.
Context `{Platform}.

(** X8: an index at or past the end of the competitors makes the array
    grow: the sequence handed to the field update has the index plus
    one elements, the original ones first and unchanged, [undefined] in
    the slots skipped, and at the index an object with the one field
    that was set. *)
Theorem update_competitor_past_end productId i field v st uid product comps :
  user st = Some uid ->
  find_product productId st = Some product ->
  prop product "competitors" = VArr comps ->
  (length comps <= i)%nat ->
  exists newCompetitors,
    handleUpdateCompetitor productId i field v st =
      fire (handleUpdateProduct productId "competitors" (VArr newCompetitors) st) /\
    length newCompetitors = S i /\
    (forall j, (j < length comps)%nat -> newCompetitors !! j = comps !! j) /\
    (forall j, (length comps <= j < i)%nat -> newCompetitors !! j = Some VUndefined) /\
    newCompetitors !! i = Some (VObj {[ field := v ]}).
Proof.
  intros Hu Hf Hc Hi.
  exists (set_competitor_field comps i field v). split.
  { unfold handleUpdateCompetitor. rewrite Hu, Hf, Hc. reflexivity. }
  unfold set_competitor_field, array_set, array_get.
  destruct (decide (i < length comps)%nat); [lia|].
  rewrite (lookup_ge_None_2 comps i) by lia. cbn [default from_option object_spread].
  rewrite insert_empty.
  repeat split.
  - rewrite !length_app, length_replicate. simpl. lia.
  - intros j Hj. by rewrite lookup_app_l.
  - intros j Hj. rewrite lookup_app_r by lia. rewrite lookup_app_l.
    + apply lookup_replicate_2. lia.
    + rewrite length_replicate. lia.
  - rewrite lookup_app_r by lia. rewrite lookup_app_r.
    + rewrite length_replicate. by replace (i - length comps - (i - length comps))%nat with 0%nat by lia.
    + rewrite length_replicate. lia.
Qed.

(** X9: the two lists of a product are not treated alike when they are
    missing.  Without an array or a text under [competitors] the
    competitor update ends by an exception before any call; a missing or
    falsy [otherLinks] counts as the empty list: adding hands over the
    one new link, updating and deleting hand over an empty list. *)
Theorem missing_lists productId st uid product :
  user st = Some uid ->
  find_product productId st = Some product ->
  (match prop product "competitors" with VArr _ | VStr _ => False | _ => True end ->
   forall i field v, handleUpdateCompetitor productId i field v st = throw st []) /\
  (truthy (prop product "otherLinks") = false ->
   (forall newId,
      handleAddOtherLink productId newId st =
        fire (handleUpdateProduct productId "otherLinks"
                (VArr [VObj (<["url" := VStr ""]> (<["title" := VStr ""]>
                               {[ "id" := VStr newId ]}))]) st)) /\
   (forall linkId field v,
      handleUpdateOtherLink productId linkId field v st =
        fire (handleUpdateProduct productId "otherLinks" (VArr []) st)) /\
   (forall linkId,
      handleDeleteOtherLink productId linkId st =
        fire (handleUpdateProduct productId "otherLinks" (VArr []) st))).
Proof.
  intros Hu Hf. split.
  - intros Hc i field v. unfold handleUpdateCompetitor. rewrite Hu, Hf.
    by destruct (prop product "competitors").
  - intros Hl. unfold handleAddOtherLink, handleUpdateOtherLink, handleDeleteOtherLink, js_or.
    rewrite Hu, Hf, Hl. by repeat split.
Qed.

(** X10: a link that is [null] or [undefined] among the links of a
    product makes updating and deleting any link of that product end by
    an exception, with no call and the state as it was, while adding a
    link still goes through and keeps the unreadable one. *)
Theorem unreadable_link productId st uid product links :
  user st = Some uid ->
  find_product productId st = Some product ->
  prop product "otherLinks" = VArr links ->
  Exists (fun l => l = VNull \/ l = VUndefined) links ->
  (forall linkId field v, handleUpdateOtherLink productId linkId field v st = throw st []) /\
  (forall linkId, handleDeleteOtherLink productId linkId st = throw st []) /\
  (forall newId, exists newLinks,
     handleAddOtherLink productId newId st =
       fire (handleUpdateProduct productId "otherLinks" (VArr newLinks) st) /\
     length newLinks = S (length links) /\
     Exists (fun l => l = VNull \/ l = VUndefined) newLinks).
Proof.
  intros Hu Hf Hl Hbad.
  unfold handleUpdateOtherLink, handleDeleteOtherLink, handleAddOtherLink, js_or.
  rewrite Hu, Hf, Hl. cbn [truthy as_array array_spread]. repeat split.
  - intros linkId field v. rewrite mapM'_stops; [reflexivity|].
    eapply Exists_impl; [exact Hbad|]. by intros l [-> | ->].
  - intros linkId. rewrite filterM_stops; [reflexivity|].
    eapply Exists_impl; [exact Hbad|]. by intros l [-> | ->].
  - intros newId. eexists. split; [reflexivity|]. split.
    + rewrite length_app. simpl. lia.
    + apply Exists_app. by left.
Qed.

(** X11: adding a link and then deleting the link of the generated id
    gives back the links there were, provided the generated id is not
    already the id of a link; updating it instead touches the new link
    only.  The second handler runs on any later state in which the
    product carries the links the first one handed over. *)
Theorem add_then_delete_link productId newId st uid product links :
  user st = Some uid ->
  find_product productId st = Some product ->
  prop product "otherLinks" = VArr links ->
  Forall (fun l => exists i, get l "id" = Some i /\ i <> VStr newId) links ->
  exists newLinks added,
    handleAddOtherLink productId newId st =
      fire (handleUpdateProduct productId "otherLinks" (VArr newLinks) st) /\
    newLinks = (links ++ [VObj added])%list /\
    added !! "id" = Some (VStr newId) /\
    added !! "title" = Some (VStr "") /\
    added !! "url" = Some (VStr "") /\
    forall st' uid' product',
      user st' = Some uid' ->
      find_product productId st' = Some product' ->
      prop product' "otherLinks" = VArr newLinks ->
      handleDeleteOtherLink productId newId st' =
        fire (handleUpdateProduct productId "otherLinks" (VArr links) st') /\
      forall field v,
        handleUpdateOtherLink productId newId field v st' =
          fire (handleUpdateProduct productId "otherLinks"
                  (VArr (links ++ [VObj (<[field := v]> added)])) st').
Proof.
  intros Hu Hf Hl Hfresh. eexists. eexists. split.
  { unfold handleAddOtherLink, js_or. rewrite Hu, Hf, Hl. reflexivity. }
  split; [reflexivity|]. split; [reflexivity|]. split; [reflexivity|]. split; [reflexivity|].
  intros st' uid' product' Hu' Hf' Hl'. split.
  - unfold handleDeleteOtherLink, js_or. rewrite Hu', Hf', Hl'. cbn [truthy as_array].
    rewrite (filterM_app _ _ _ links [] (keep_link_absent newId links Hfresh)).
    + by rewrite app_nil_r.
    + cbn. by rewrite new_link_id, (proj2 (is_string_spec newId _) eq_refl).
  - intros field v. unfold handleUpdateOtherLink, js_or. rewrite Hu', Hf', Hl'.
    cbn [truthy as_array].
    erewrite (mapM'_app _ _ _ links _ (update_link_absent newId field v links Hfresh)).
    + reflexivity.
    + cbn. by rewrite new_link_id, (proj2 (is_string_spec newId _) eq_refl).
Qed.

(** X12: updating a link of a product whose links can all be read
    hands over a sequence of the same length in which every link of
    the given id (one or several) is the original link with the field
    set, and every other link is the original one, at its place. *)
Theorem update_link_frame productId linkId field v st uid product links :
  user st = Some uid ->
  find_product productId st = Some product ->
  links_of product = Some links ->
  Forall (fun l => is_Some (get l "id")) links ->
  exists newLinks,
    handleUpdateOtherLink productId linkId field v st =
      fire (handleUpdateProduct productId "otherLinks" (VArr newLinks) st) /\
    length newLinks = length links /\
    forall j l, links !! j = Some l ->
      (get l "id" = Some (VStr linkId) ->
       exists c, newLinks !! j = Some (VObj c) /\ c !! field = Some v /\
                 forall g, g <> field -> c !! g = object_spread l !! g) /\
      (get l "id" <> Some (VStr linkId) -> newLinks !! j = Some l).
Proof.
  intros Hu Hf Hl Hread.
  assert (Hall : Forall (fun l => update_link linkId field v l =
            Some (if has_link_id linkId l then VObj (<[field := v]> (object_spread l)) else l))
            links).
  { eapply Forall_impl; [exact Hread|]. intros l [i Hi]. unfold update_link, has_link_id.
    by rewrite Hi. }
  eexists. split.
  { unfold handleUpdateOtherLink. unfold links_of in Hl. rewrite Hu, Hf, Hl.
    rewrite (mapM'_total _ _ _ Hall). reflexivity. }
  split; [apply length_map|].
  intros j l Hj. rewrite list_lookup_fmap, Hj. cbn [fmap option_fmap option_map].
  split.
  - intros Hid%has_link_id_spec. rewrite Hid. eexists. split; [reflexivity|].
    split; [apply lookup_insert_eq|]. intros g Hg. by apply lookup_insert_ne.
  - intros Hid. destruct (has_link_id linkId l) eqn:E; [|reflexivity].
    apply has_link_id_spec in E. contradiction.
Qed.

(** X13: whatever handler is invoked, with whatever arguments and
    outcome of its awaited promise, the local collection, the user, the
    query, the loading flag and local storage are left as they were:
    the collection changes by snapshots only.  At most one call is
    made, on a document of the signed-in user; with nobody signed in
    there is no call at all and the state is kept.  The selection
    changes only on a creation or a deletion that was carried out. *)
Theorem handlers_frame (i : invocation) st :
  let r := invoke i st in
  products (final r) = products st /\
  user (final r) = user st /\
  searchQuery (final r) = searchQuery st /\
  loading (final r) = loading st /\
  localStorage (final r) = localStorage st /\
  (length (calls r) <= 1)%nat /\
  (forall c, c ∈ calls r ->
     exists uid id, user st = Some uid /\ doc uid (VStr id) = Some (call_ref c)) /\
  (user st = None -> r = done st []) /\
  (selectedId (final r) <> selectedId st ->
     (exists newId now, i = AddProduct newId now true) \/
     (exists id, i = DeleteProduct id true)).
Proof.
  assert (Hupd : forall id field v,
    let r := handleUpdateProduct id field v st in
    final r = st /\ (length (calls r) <= 1)%nat /\
    (forall c, c ∈ calls r ->
       exists uid id, user st = Some uid /\ doc uid (VStr id) = Some (call_ref c))).
  { intros id field v. unfold handleUpdateProduct.
    destruct (user st) as [uid|]; [|by repeat split; [simpl; lia | intros c Hc; inversion Hc]].
    destruct (doc uid (VStr id)) as [ref|] eqn:Hd;
      [|by repeat split; [simpl; lia | intros c Hc; inversion Hc]].
    destruct (data_ok _); simpl; repeat split; try lia.
    - intros c Hc. apply list_elem_of_singleton in Hc as ->. by exists uid, id.
    - intros c Hc. inversion Hc. }
  assert (Hfire : forall id field v,
    let r := fire (handleUpdateProduct id field v st) in
    final r = st /\ (length (calls r) <= 1)%nat /\
    (forall c, c ∈ calls r ->
       exists uid id, user st = Some uid /\ doc uid (VStr id) = Some (call_ref c))).
  { intros id field v. exact (Hupd id field v). }
  assert (Hnone : forall st0 : state,
    final (done st0 []) = st0 /\ (length (calls (done st0 [])) <= 1)%nat /\
    (forall c, c ∈ calls (done st0 []) ->
       exists uid id, user st = Some uid /\ doc uid (VStr id) = Some (call_ref c))).
  { intros st0. repeat split; [simpl; lia|]. intros c Hc. inversion Hc. }
  assert (Hthrow : forall st0 : state,
    final (throw st0 []) = st0 /\ (length (calls (throw st0 [])) <= 1)%nat /\
    (forall c, c ∈ calls (throw st0 []) ->
       exists uid id, user st = Some uid /\ doc uid (VStr id) = Some (call_ref c))).
  { intros st0. repeat split; [simpl; lia|]. intros c Hc. inversion Hc. }
  assert (Hpack : forall r : result,
    (user st = None -> r = done st []) ->
    final r = st /\ (length (calls r) <= 1)%nat /\
    (forall c, c ∈ calls r ->
       exists uid id, user st = Some uid /\ doc uid (VStr id) = Some (call_ref c)) ->
    products (final r) = products st /\
    user (final r) = user st /\
    searchQuery (final r) = searchQuery st /\
    loading (final r) = loading st /\
    localStorage (final r) = localStorage st /\
    (length (calls r) <= 1)%nat /\
    (forall c, c ∈ calls r ->
       exists uid id, user st = Some uid /\ doc uid (VStr id) = Some (call_ref c)) /\
    (user st = None -> r = done st []) /\
    (selectedId (final r) <> selectedId st ->
       (exists newId now, i = AddProduct newId now true) \/
       (exists id, i = DeleteProduct id true))).
  { intros r Hout (Hfin & Hlen & Hc). rewrite Hfin. repeat split; try done. }
  destruct i as [newId now created|id field v|productId compIndex field v|productId newId
                |productId linkId field v|productId linkId|id deleted]; cbn [invoke].
  - unfold handleAddProduct.
    destruct (user st) as [uid|] eqn:Hu; [|by apply Hpack; [|apply Hnone]].
    destruct (doc uid (VStr newId)) as [ref|] eqn:Hd;
      [|by apply Hpack; [|apply Hnone]].
    destruct (data_ok _); [|by apply Hpack; [|apply Hnone]].
    destruct created; simpl; repeat split; try done; try lia.
    + intros c Hc. apply list_elem_of_singleton in Hc as ->. by exists uid, newId.
    + intros _. left. by exists newId, now.
    + intros c Hc. apply list_elem_of_singleton in Hc as ->. by exists uid, newId.
  - apply Hpack; [|apply Hupd]. unfold handleUpdateProduct. by intros ->.
  - unfold handleUpdateCompetitor.
    destruct (user st) as [uid|] eqn:Hu; [|by apply Hpack; [|apply Hnone]].
    destruct (find_product productId st); [|by apply Hpack; [|apply Hnone]].
    destruct (array_spread _); [|by apply Hpack; [|apply Hthrow]].
    apply Hpack; [done|]. apply Hfire.
  - unfold handleAddOtherLink.
    destruct (user st) as [uid|] eqn:Hu; [|by apply Hpack; [|apply Hnone]].
    destruct (find_product productId st); [|by apply Hpack; [|apply Hnone]].
    destruct (array_spread _); [|by apply Hpack; [|apply Hthrow]].
    apply Hpack; [done|]. apply Hfire.
  - unfold handleUpdateOtherLink.
    destruct (user st) as [uid|] eqn:Hu; [|by apply Hpack; [|apply Hnone]].
    destruct (find_product productId st); [|by apply Hpack; [|apply Hnone]].
    destruct (as_array _); [|by apply Hpack; [|apply Hthrow]].
    destruct (mapM' _ _); [|by apply Hpack; [|apply Hthrow]].
    apply Hpack; [done|]. apply Hfire.
  - unfold handleDeleteOtherLink.
    destruct (user st) as [uid|] eqn:Hu; [|by apply Hpack; [|apply Hnone]].
    destruct (find_product productId st); [|by apply Hpack; [|apply Hnone]].
    destruct (as_array _); [|by apply Hpack; [|apply Hthrow]].
    destruct (filterM _ _); [|by apply Hpack; [|apply Hthrow]].
    apply Hpack; [done|]. apply Hfire.
  - unfold handleDeleteProduct.
    destruct (user st) as [uid|] eqn:Hu; [|by apply Hpack; [|apply Hnone]].
    destruct (doc uid (VStr id)) as [ref|] eqn:Hd;
      [|by apply Hpack; [|apply Hnone]].
    destruct deleted; simpl; repeat split; try done; try lia.
    + intros c Hc. apply list_elem_of_singleton in Hc as ->. by exists uid, id.
    + intros _. right. by exists id.
    + intros c Hc. apply list_elem_of_singleton in Hc as ->. by exists uid, id.
Qed.

End HandlerEdges.

(** ** The filter: narrowing and failure *)






Section FilterEdges.
Context `{Platform}.



Lemma matches_none q p :
  matches q p = None <->
  match prop p "name" with
  | VStr name =>
    ~ occurs_in (toLowerCase q) (toLowerCase name) /\
    match prop p "status" with VStr _ => False | _ => True end
  | _ => True
  end.
Proof.
  unfold matches. destruct (prop p "name") as [| | | |name| |]; try tauto.
  rewrite <- includes_spec.
  destruct (includes (toLowerCase name) (toLowerCase q)).
  - split; [discriminate | intros [Hn _]; by destruct Hn].
  - destruct (prop p "status"); split; try discriminate; try tauto; intros _;
      (split; [discriminate | exact I]).
Qed.

Lemma filterM_none {A} (f : A -> option bool) l :
  filterM f l = None <-> Exists (fun x => f x = None) l.
Proof.
  split; [|apply filterM_stops].
  induction l as [|x l IH]; simpl; [discriminate|].
  destruct (f x) eqn:Hx; [|intros _; by left].
  destruct (filterM f l); [by destruct b|]. intros _. right. by apply IH.
Qed.

(** X15: the filter ends by an exception exactly when some product of
    the collection has a name that is not a string, or a name that
    does not contain the query together with a status that is not a
    string (a name that matches spares the look at the status).  So a
    single document of a snapshot without a [name] makes the filter
    fail for every query. *)
Theorem filter_fails_iff :
  (forall st,
     filteredProducts st = None <->
     Exists (fun p =>
       match prop p "name" with
       | VStr name =>
         ~ occurs_in (toLowerCase (searchQuery st)) (toLowerCase name) /\
         match prop p "status" with VStr _ => False | _ => True end
       | _ => True
       end) (products st)) /\
  (forall uid snapshot st k body q,
     (k, body) ∈ snapshot -> body !! "name" = None ->
     filteredProducts (setSearchQuery q (final (onSnapshot uid snapshot st))) = None).
Proof.
  assert (Hiff : forall st,
     filteredProducts st = None <->
     Exists (fun p =>
       match prop p "name" with
       | VStr name =>
         ~ occurs_in (toLowerCase (searchQuery st)) (toLowerCase name) /\
         match prop p "status" with VStr _ => False | _ => True end
       | _ => True
       end) (products st)).
  { intros st. unfold filteredProducts. rewrite filterM_none.
    split; intros HE; (eapply Exists_impl; [exact HE|]); intros p; apply matches_none. }
  split; [exact Hiff|].
  intros uid snapshot st k body q Hin Hname. apply Hiff.
  cbn [products setSearchQuery]. rewrite onSnapshot_products.
  apply Exists_exists. exists (project_doc (k, body)). split.
  - apply elem_of_project. by exists (k, body).
  - unfold prop, project_doc. cbn [fst snd].
    rewrite lookup_insert_ne by done. by rewrite Hname.
Qed.

End FilterEdges.

(** ** What the table shows *)

Lemma usd_not_dash neg cents : usd neg cents <> "-".
Proof.
  unfold usd. generalize (fixed_digits cents 2). intros d.
  generalize (group3 (substring 0 (String.length d - 3) d) ++
              substring (String.length d - 3) 3 d).
  intros tail. by destruct neg.
Qed.


Lemma sub_self_is_zero x : is_finite x = true -> is_zero (x - x)%float = true.
Proof.
  intros Hfin. unfold is_zero. rewrite FloatAxioms.eqb_spec, FloatAxioms.sub_spec.
  unfold SFeqb. change (Prim2SF PrimFloat.zero) with (S754_zero false).
  unfold is_finite in Hfin. apply negb_true_iff, orb_false_iff in Hfin as [Hnan Hinf].
  assert (Hx : Prim2SF x <> S754_nan) by by apply is_nan_spec.
  destruct (SFsub_sign _ _ (Prim2SF_valid x) (Prim2SF_valid x) Hx Hx)
    as [(_ & s & Hs & _) | ->].
  - exfalso. unfold is_infinity in Hinf.
    rewrite FloatAxioms.eqb_spec, FloatAxioms.abs_spec, Hs in Hinf. by destruct s.
  - by rewrite Z.compare_refl.
Qed.

Section Cells.
Context `{Platform}.

Lemma formatCurrency_dash v : formatCurrency v = "-" <-> truthy v = false.
Proof.
  unfold formatCurrency. destruct (truthy v); simpl; [|tauto].
  split; [|discriminate]. unfold Intl_USD_format.
  destruct (to_mathval v) as [|s|s m e|s m e].
  - discriminate.
  - by destruct s.
  - intros Hu. by apply usd_not_dash in Hu.
  - intros Hu. by apply usd_not_dash in Hu.
Qed.

(** X16: [formatCurrency] gives the dash exactly for the falsy values
    (among them the number zero, NaN, the empty text, [null] and
    [undefined]); what the formatter prints for any other value is
    never the dash. *)
Theorem formatCurrency_dash_iff v :
  (formatCurrency v = "-" <-> truthy v = false) /\
  (truthy v = true -> Intl_USD_format v <> "-").
Proof.
  split; [apply formatCurrency_dash|].
  intros Ht Heq. assert (Hd : formatCurrency v = "-").
  { unfold formatCurrency. by rewrite Ht. }
  apply formatCurrency_dash in Hd. congruence.
Qed.

(** X17: the margin cell of a row is the dash exactly when the price
    or the cost is falsy, the difference of their numbers is NaN, or
    that difference is zero.  In particular a product whose price and
    cost are the same finite number shows a dash as margin, not a zero
    amount. *)
Theorem margin_cell_dash product :
  let p := parseFloat (prop product "price") in
  let c := parseFloat (prop product "cogs") in
  (marginCell product = "-" <->
     truthy (prop product "price") = false \/ truthy (prop product "cogs") = false \/
     is_nan (p - c)%float = true \/ is_zero (p - c)%float = true) /\
  (is_finite p = true -> p = c -> marginCell product = "-").
Proof.
  intros p c.
  assert (Hiff : marginCell product = "-" <->
     truthy (prop product "price") = false \/ truthy (prop product "cogs") = false \/
     is_nan (p - c)%float = true \/ is_zero (p - c)%float = true).
  { unfold marginCell. fold p c.
    destruct (is_nan (p - c)%float) eqn:Hnan; simpl; [tauto|].
    destruct (truthy (prop product "price")); simpl; [|tauto].
    destruct (truthy (prop product "cogs")); simpl; [|tauto].
    rewrite formatCurrency_dash. simpl. rewrite Hnan, orb_false_r, negb_false_iff.
    intuition congruence. }
  split; [exact Hiff|].
  intros Hfin <-. apply Hiff. right. right. right. by apply sub_self_is_zero.
Qed.


End Cells.

(** ** Creating and deleting a product *)

Ltac read_field :=
  unfold prop, new_product, NEW_PRODUCT_TEMPLATE;
  repeat (rewrite lookup_insert_ne by done);
  rewrite ?lookup_insert_eq, ?lookup_singleton_eq; cbn [default from_option id].

Lemma project_new_product newId now :
  project_doc (newId, new_product newId now) = new_product newId now.
Proof.
  unfold project_doc. cbn [fst snd]. apply insert_id. unfold new_product.
  rewrite lookup_insert_ne by done. apply lookup_insert_eq.
Qed.

Section Lifecycle.
Context `{Platform}.

(** X19: a creation that is carried out writes the new product, a
    plain write under the generated id, and selects it: after the
    write the store holds the product at that reference, and once a
    snapshot with distinct keys brings the document the selected
    product is the new one, as written.  A creation that is rejected
    makes the same call and leaves the selection as it was. *)
Theorem created_product_is_selected newId now st uid ref :
  user st = Some uid ->
  doc uid (VStr newId) = Some ref ->
  data_ok (VObj (new_product newId now)) = true ->
  let r := handleAddProduct newId now true st in
  calls r = [SetDoc ref (VObj (new_product newId now)) false] /\
  (forall remote, (settle r [true] remote).2 !! ref = Some (VObj (new_product newId now))) /\
  (forall uid' snapshot,
     NoDup (map fst snapshot) ->
     (newId, new_product newId now) ∈ snapshot ->
     selectedProduct (final (onSnapshot uid' snapshot (final r))) =
       Some (new_product newId now)) /\
  calls (handleAddProduct newId now false st) = calls r /\
  final (handleAddProduct newId now false st) = st.
Proof.
  intros Hu Hd Hok r. subst r. unfold handleAddProduct. rewrite Hu, Hd, Hok.
  repeat split.
  - intros remote. unfold settle. simpl. apply lookup_insert_eq.
  - intros uid' snapshot Hnd Hin. unfold selectedProduct.
    rewrite onSnapshot_selectedId. cbn [final done selectedId setSelectedId].
    rewrite (find_in_snapshot _ _ _ _ _ Hnd Hin). by rewrite project_new_product.
Qed.

(** X20: a product as created is listed by exactly the queries that,
    lower-cased, occur in its status "pending" (its name is empty), its
    cost, price and margin cells are dashes and so is its break-even
    cell. *)
Theorem created_product_row newId now q :
  let product := new_product newId now in
  matches q product = Some (includes "pending" (toLowerCase q)) /\
  formatCurrency (prop product "cogs") = "-" /\
  formatCurrency (prop product "price") = "-" /\
  marginCell product = "-" /\
  rowRoasCell product = Plain "-".
Proof.
  intros product. subst product. split; [|split; [|split; [|split]]].
  - unfold matches. read_field. change (toLowerCase "") with "".
    read_field. change (toLowerCase "Pending") with "pending".
    destruct (toLowerCase q); reflexivity.
  - read_field. reflexivity.
  - read_field. reflexivity.
  - unfold marginCell. read_field. by rewrite andb_false_r.
  - unfold rowRoasCell, calculateRoas, parseFloat. read_field. reflexivity.
Qed.

(** X21: a deletion that is carried out closes the detail panel at
    once (no product is selected) while the product stays in the local
    collection; it is gone from the next snapshot on, provided the store
    no longer lists its key.  The local collection is one built from
    snapshots: every [id] is a string. *)
Theorem delete_closes_panel id st uid ref :
  user st = Some uid ->
  doc uid (VStr id) = Some ref ->
  Forall (fun p => exists k, prop p "id" = VStr k) (products st) ->
  let r := handleDeleteProduct id true st in
  calls r = [DeleteDoc ref] /\
  selectedProduct (final r) = None /\
  find_product id (final r) = find_product id st /\
  (forall remote, (settle r [true] remote).2 !! ref = None) /\
  (forall uid' snapshot,
     id ∉ map fst snapshot ->
     find_product id (final (onSnapshot uid' snapshot (final r))) = None).
Proof.
  intros Hu Hd Hids r. subst r. unfold handleDeleteProduct. rewrite Hu, Hd.
  repeat split.
  - unfold selectedProduct. cbn [final done selectedId setSelectedId products].
    apply find_none_iff. eapply Forall_impl; [exact Hids|].
    intros p [k ->]. reflexivity.
  - intros remote. unfold settle. simpl. apply lookup_delete_eq.
  - intros uid' snapshot Hk. by apply find_not_in_snapshot.
Qed.

End Lifecycle.

(** ** The break-even ratio is at least one *)

(** A value rounded up to the next multiple of [2^n] stays at or below
    any larger multiple of [2^n]. *)
Lemma below_grid M K n m1 :
  0 <= n -> M < K * 2 ^ n -> m1 <= M / 2 ^ n + 1 -> m1 * 2 ^ n <= K * 2 ^ n.
Proof.
  intros Hn HMP Hm1. pose proof (pow2_pos n Hn) as Hp.
  assert (M / 2 ^ n < K) by (apply Z.div_lt_upper_bound; lia).
  nia.
Qed.

(** Rounding a value below a binary64 value [mp * 2^k] (in units of
    [2^e]) does not go past it. *)
Lemma binary_round_aux_below s (M : positive) e l (mp : positive) k :
  -1074 <= e <= 971 -> 0 <= k -> Zpos mp < 2 ^ 53 ->
  Zpos M < Zpos mp * 2 ^ k ->
  Zpos M * 2 ^ (e + 1074) < (2 ^ 53 - 1) * top_ulp ->
  exists m' e',
    binary_round_aux prec emax s (Zpos M) e l = S754_finite s m' e' /\
    e <= e' /\ Zpos m' * 2 ^ (e' - e) <= Zpos mp * 2 ^ k.
Proof.
  intros He Hk Hmp Hlt Hval.
  destruct (binary_round_aux_spec s M e l ltac:(lia))
    as (m1 & n & n2 & m' & Hn & Hm1 & Hn2 & Hm1le & Hm1lt & Hcarry & Hm' & Hr).
  destruct (binary_round_aux_finite s M e l He Hval) as (m'' & e'' & Hr' & _).
  rewrite Hr in Hr'. destruct (e + n + n2 <=? 971); [|discriminate]. clear Hr' m'' e''.
  exists m', (e + n + n2). split; [exact Hr|]. split; [lia|].
  replace (e + n + n2 - e) with (n2 + n) by lia.
  rewrite (pow2_split n2 n), Z.mul_assoc, Hm' by lia.
  pose proof (digits2_bounds M) as [Hlo Hhi].
  set (d := Zpos (digits2_pos M)) in *.
  assert (Hd : 1 <= d) by (unfold d; lia).
  destruct (Z.eq_dec n 0) as [Hn0|Hn0].
  - rewrite Hn0 in *. change (2 ^ 0) with 1 in *. rewrite Z.div_1_r in Hm1. lia.
  - assert (Hdn : d = n + 53) by lia.
    assert (Hnk : n <= k).
    { assert (Hx : 2 ^ (d - 1) < 2 ^ (53 + k)).
      { rewrite (pow2_split 53 k) by lia. pose proof (pow2_pos k Hk). nia. }
      apply pow2_lt_inv in Hx; lia. }
    replace k with ((k - n) + n) in * by lia.
    rewrite (pow2_split (k - n) n) in * by lia. rewrite Z.mul_assoc in *.
    apply below_grid with (Zpos M); lia.
Qed.

Lemma binary_round_below s m e (mp : positive) k :
  -1074 <= e <= 971 -> 0 <= k -> Zpos mp < 2 ^ 53 ->
  Zpos m < Zpos mp * 2 ^ k ->
  Zpos m * 2 ^ (e + 1074) < (2 ^ 53 - 1) * top_ulp ->
  exists m' e',
    binary_round prec emax s m e = S754_finite s m' e' /\
    Zpos m' * 2 ^ (e' + 1074) <= Zpos mp * 2 ^ (k + (e + 1074)).
Proof.
  intros He Hk Hmp Hlt Hval. unfold binary_round.
  pose proof (shl_align_spec m e (fexp prec emax (Zpos (digits2_pos m) + e))) as [Hs Hv].
  destruct (shl_align m e (fexp prec emax (Zpos (digits2_pos m) + e))) as [M e1].
  simpl in Hs, Hv.
  assert (He1 : -1074 <= e1 <= e).
  { rewrite Hs. unfold fexp, SpecFloat.emin, prec, emax. lia. }
  pose proof (pow2_pos (e - e1) ltac:(lia)) as Hp1.
  pose proof (pow2_pos (e1 + 1074) ltac:(lia)) as Hp2.
  assert (Hsame : Zpos M * 2 ^ (e1 + 1074) = Zpos m * 2 ^ (e + 1074)).
  { rewrite Hv. replace (e + 1074) with ((e - e1) + (e1 + 1074)) by lia.
    rewrite (pow2_split (e - e1) (e1 + 1074)) by lia. ring. }
  destruct (binary_round_aux_below s M e1 loc_Exact mp (k + (e - e1)))
    as (m' & e' & Hr & He' & Hle); try lia.
  { rewrite Hv, (pow2_split k (e - e1)) by lia. nia. }
  exists m', e'. split; [exact Hr|].
  replace (e' + 1074) with ((e' - e1) + (e1 + 1074)) by lia.
  replace (k + (e + 1074)) with ((k + (e - e1)) + (e1 + 1074)) by lia.
  rewrite (pow2_split (e' - e1) (e1 + 1074)), (pow2_split (k + (e - e1)) (e1 + 1074)) by lia.
  nia.
Qed.

(** For binary64 values [0 < c < p], the float [p - c] is at most [p]. *)
Lemma SFsub_below mp ep mc ec :
  bounded prec emax mp ep = true -> bounded prec emax mc ec = true ->
  Zpos mc * 2 ^ (ec + 1074) < Zpos mp * 2 ^ (ep + 1074) ->
  exists mz ez,
    SF64sub (S754_finite false mp ep) (S754_finite false mc ec) = S754_finite false mz ez /\
    Zpos mz * 2 ^ (ez + 1074) <= Zpos mp * 2 ^ (ep + 1074).
Proof.
  intros Hp Hc Hlt. unfold SF64sub, SFsub.
  pose proof (shl_align_spec mp ep (Z.min ep ec)) as [Hsp Hvp].
  pose proof (shl_align_spec mc ec (Z.min ep ec)) as [Hsc Hvc].
  pose proof (bounded_mantissa _ _ Hp) as (Hep & Hmp & _).
  pose proof (bounded_mantissa _ _ Hc) as (Hec & _ & _).
  set (e0 := Z.min ep ec) in *.
  rewrite Hsp in Hvp. rewrite Hsc in Hvc.
  replace (Z.min ep e0) with e0 in Hvp by lia.
  replace (Z.min ec e0) with e0 in Hvc by lia.
  unfold cond_Zopp. rewrite Hvp, Hvc.
  pose proof (pow2_pos (e0 + 1074) ltac:(lia)) as Hp0.
  pose proof (pow2_pos (ec - e0) ltac:(lia)) as Hp1.
  assert (HD : (Zpos mp * 2 ^ (ep - e0) - Zpos mc * 2 ^ (ec - e0)) * 2 ^ (e0 + 1074)
               = Zpos mp * 2 ^ (ep + 1074) - Zpos mc * 2 ^ (ec + 1074)).
  { replace (ep + 1074) with ((ep - e0) + (e0 + 1074)) by lia.
    replace (ec + 1074) with ((ec - e0) + (e0 + 1074)) by lia.
    rewrite (pow2_split (ep - e0)), (pow2_split (ec - e0)) by lia. ring. }
  assert (HDlt : Zpos mp * 2 ^ (ep - e0) - Zpos mc * 2 ^ (ec - e0) < Zpos mp * 2 ^ (ep - e0))
    by lia.
  destruct (Zpos mp * 2 ^ (ep - e0) - Zpos mc * 2 ^ (ec - e0)) as [|D|D] eqn:HDeq;
    [lia | | lia].
  unfold binary_normalize.
  pose proof (finite_rank_bounds _ _ Hp) as [_ Hmax].
  destruct (binary_round_below false D e0 mp (ep - e0)) as (mz & ez & Hr & Hle); try lia.
  exists mz, ez. split; [exact Hr|].
  by replace (ep - e0 + (e0 + 1074)) with (ep + 1074) in Hle by lia.
Qed.

(** The quotient of two positive binary64 values [z <= p <= 2^55 z] is
    a normal float that is at least one. *)
Lemma SFdiv_ge_one mp ep mz ez :
  bounded prec emax mp ep = true -> bounded prec emax mz ez = true ->
  Zpos mz * 2 ^ (ez + 1074) <= Zpos mp * 2 ^ (ep + 1074) ->
  Zpos mp * 2 ^ (ep + 1074) <= 2 ^ 55 * (Zpos mz * 2 ^ (ez + 1074)) ->
  exists mq eq,
    SF64div (S754_finite false mp ep) (S754_finite false mz ez) = S754_finite false mq eq /\
    2 ^ 52 <= Zpos mq < 2 ^ 53 /\ -54 <= eq <= 4 /\
    (eq <= 0 -> 2 ^ (- eq) <= Zpos mq).
Proof.
  intros Hp Hz Hlo Hhi.
  pose proof (bounded_inv _ _ Hp) as (Hep & Hd1 & _).
  pose proof (bounded_inv _ _ Hz) as (Hez & Hd2 & _).
  pose proof (digits2_bounds mp) as [Hlo1 Hhi1].
  pose proof (digits2_bounds mz) as [Hlo2 Hhi2].
  unfold SF64div, SFdiv, SFdiv_core_binary. simpl Zdigits2. simpl xorb.
  set (d1 := Zpos (digits2_pos mp)) in *. set (d2 := Zpos (digits2_pos mz)) in *.
  assert (Hd1' : 1 <= d1) by (unfold d1; lia).
  assert (Hd2' : 1 <= d2) by (unfold d2; lia).
  pose proof (pow2_pos (ep + 1074) ltac:(lia)) as HBp.
  pose proof (pow2_pos (ez + 1074) ltac:(lia)) as HBz.
  assert (Hdlo : d2 + ez < d1 + ep + 2).
  { assert (Hx : 2 ^ ((d2 - 1) + (ez + 1074)) < 2 ^ ((1 + d1) + (ep + 1074))).
    { rewrite (pow2_split (d2 - 1)), (pow2_split (1 + d1)), (pow2_split 1 d1) by lia.
      change (2 ^ 1) with 2. nia. }
    apply pow2_lt_inv in Hx; lia. }
  assert (Hdhi : d1 + ep < d2 + ez + 56).
  { assert (Hx : 2 ^ ((d1 - 1) + (ep + 1074)) < 2 ^ ((55 + d2) + (ez + 1074))).
    { rewrite (pow2_split (d1 - 1)), (pow2_split (55 + d2)), (pow2_split 55 d2) by lia.
      pose proof (pow2_pos 55 ltac:(lia)). nia. }
    apply pow2_lt_inv in Hx; lia. }
  replace (Z.min (fexp prec emax (d1 + ep - (d2 + ez))) (ep - ez))
    with (d1 + ep - (d2 + ez) - 53)
    by (unfold fexp, SpecFloat.emin, prec, emax; lia).
  set (e' := d1 + ep - (d2 + ez) - 53) in *.
  destruct (ep - ez - e') as [|sh|sh] eqn:Hs; try lia.
  rewrite Z.shiftl_mul_pow2 by lia.
  assert (Hsh : Zpos sh = 53 - d1 + d2) by lia.
  pose proof (pow2_pos (Zpos sh) ltac:(lia)) as Hpsh.
  assert (Hnum_lo : 2 ^ 52 * Zpos mz <= Zpos mp * 2 ^ Zpos sh).
  { assert (H1 : 2 ^ 52 * 2 ^ d2 = 2 ^ (d1 - 1) * 2 ^ Zpos sh).
    { rewrite <- (pow2_split 52 d2), <- (pow2_split (d1 - 1) (Zpos sh)) by lia.
      f_equal. lia. }
    pose proof (pow2_pos 52 ltac:(lia)). nia. }
  assert (Hnum_hi : Zpos mp * 2 ^ Zpos sh < Zpos mz * 2 ^ 54).
  { assert (H1 : 2 ^ d1 * 2 ^ Zpos sh = 2 ^ (d2 - 1) * 2 ^ 54).
    { rewrite <- (pow2_split d1 (Zpos sh)), <- (pow2_split (d2 - 1) 54) by lia.
      f_equal. lia. }
    pose proof (pow2_pos 54 ltac:(lia)). nia. }
  (* the numerator is at least the denominator times [2^(-e')] *)
  assert (Hnum_one : e' <= 0 -> Zpos mz * 2 ^ (- e') <= Zpos mp * 2 ^ Zpos sh).
  { intros He'. pose proof (pow2_pos (- e') ltac:(lia)) as Hpe.
    assert (H1 : Zpos mp * 2 ^ Zpos sh * 2 ^ (ez + 1074) =
                 Zpos mp * 2 ^ (ep + 1074) * 2 ^ (- e')).
    { rewrite <- !Z.mul_assoc, <- (pow2_split (Zpos sh) (ez + 1074)),
        <- (pow2_split (ep + 1074) (- e')) by lia.
      do 2 f_equal. lia. }
    nia. }
  destruct (Z.div_eucl (Zpos mp * 2 ^ Zpos sh) (Zpos mz)) as [q r] eqn:Hqr.
  assert (Hq : q = Zpos mp * 2 ^ Zpos sh / Zpos mz) by (unfold Z.div; by rewrite Hqr).
  assert (Hq_lo : 2 ^ 52 <= q).
  { rewrite Hq. apply Z.div_le_lower_bound; lia. }
  assert (Hq_hi : q < 2 ^ 54).
  { rewrite Hq. apply Z.div_lt_upper_bound; lia. }
  assert (Hq_one : e' <= 0 -> 2 ^ (- e') <= q).
  { intros He'. rewrite Hq. apply Z.div_le_lower_bound; [lia|].
    specialize (Hnum_one He'). lia. }
  destruct q as [|Q|Q]; [mantissa_bounds; lia | | lia].
  destruct (binary_round_aux_spec false Q e' (new_location (Zpos mz) r) ltac:(lia))
    as (m1 & n & n2 & mq & Hn & Hm1 & Hn2 & Hm1le & Hm1lt & Hcarry & Hmq & Hr).
  pose proof (kept_mantissa_bounds Q) as [_ Hkept]. rewrite <- Hn in Hkept.
  pose proof (digits2_bounds Q) as [HloQ HhiQ].
  assert (HdQ : 53 <= Zpos (digits2_pos Q) <= 54).
  { split.
    - assert (Hx : 2 ^ 52 < 2 ^ Zpos (digits2_pos Q)) by lia.
      apply pow2_lt_inv in Hx; lia.
    - assert (Hx : 2 ^ (Zpos (digits2_pos Q) - 1) < 2 ^ 54) by lia.
      apply pow2_lt_inv in Hx; lia. }
  assert (Hm1_lo : 2 ^ 52 <= m1).
  { destruct (Z.eq_dec n 0) as [Hn0|Hn0].
    - rewrite Hn0, Z.div_1_r in Hm1. lia.
    - assert (2 ^ 52 <= Zpos Q / 2 ^ n) by (apply Hkept; lia). lia. }
  assert (Hfin : e' + n + n2 <=? 971 = true) by (apply Z.leb_le; lia).
  rewrite Hfin in Hr. exists mq, (e' + n + n2). split; [exact Hr|].
  assert (Hrange : 2 ^ 52 <= Zpos mq < 2 ^ 53).
  { destruct (Z.eq_dec n2 0) as [Hz0|Hz0].
    - rewrite Hz0, Z.mul_1_r in Hmq. rewrite Hmq. split; [lia | auto].
    - assert (Hn21 : n2 = 1) by lia. rewrite Hn21 in Hmq.
      rewrite (Hcarry Hn21) in Hmq. change (2 ^ 1) with 2 in Hmq. mantissa_bounds. lia. }
  split; [exact Hrange|]. split; [lia|].
  intros Heq.
  assert (He' : e' <= 0) by lia.
  specialize (Hq_one He').
  pose proof (pow2_pos n ltac:(lia)) as Hpn.
  pose proof (pow2_pos n2 ltac:(lia)) as Hpn2.
  pose proof (pow2_pos (- (e' + n + n2)) ltac:(lia)) as Hpq.
  (* [2^(-e'-n) <= Q / 2^n <= m1 = mq * 2^n2] *)
  assert (Hkeep : 2 ^ (- (e' + n + n2)) * 2 ^ n2 <= Zpos Q / 2 ^ n).
  { apply Z.div_le_lower_bound; [lia|].
    replace (- e') with (n + (- (e' + n + n2) + n2)) in Hq_one by lia.
    rewrite (pow2_split n), (pow2_split (- (e' + n + n2)) n2) in Hq_one by lia. lia. }
  nia.
Qed.

Lemma scaled_round_ge_100 mq eq :
  (eq <= 0 -> 2 ^ (- eq) <= Zpos mq) -> 100 <= scaled_round mq eq 2.
Proof.
  intros Hone. pose proof (scaled_round_nearest mq eq 2) as Hn. cbv zeta in Hn.
  change (10 ^ Z.of_nat 2) with 100 in Hn.
  destruct eq as [|k|k].
  - rewrite Hn. change (2 ^ 0) with 1. lia.
  - rewrite Hn. pose proof (pow2_pos (Zpos k) ltac:(lia)). nia.
  - specialize (Hone ltac:(lia)). change (- Zneg k) with (Zpos k) in Hone.
    pose proof (pow2_pos (Zpos k) ltac:(lia)). nia.
Qed.

Section RoasBound.
Context `{Platform}.

(** X22: for a finite price above a positive cost, the break-even
    ratio that [calculateRoas] prints is a number of hundredths that is
    at least 100: the text stands for a value of at least 1.00. *)
Theorem roas_at_least_one price cogs :
  let p := parseFloat price in
  let c := parseFloat cogs in
  is_finite p = true -> (0 <? c)%float = true -> (c <? p)%float = true ->
  exists n,
    calculateRoas price cogs = RoasFixed (fixed_digits n 2) /\ 100 <= n.
Proof.
  intros p c Hfin H0c Hcp. unfold calculateRoas. fold p c.
  destruct (ltb_true_not_nan _ _ H0c) as [_ Hnc].
  destruct (ltb_true_not_nan _ _ Hcp) as [_ Hnp].
  rewrite Hnp, Hnc. cbn [orb].
  rewrite ltb_rank in H0c, Hcp by (auto; reflexivity).
  apply Z.ltb_lt in H0c, Hcp. change (rank 0) with 0 in H0c.
  rewrite (sub_not_le_zero p c Hnp Hnc Hcp).
  pose proof (is_finite_rank p Hfin) as Hp_fin.
  destruct (positive_finite_form c Hnc ltac:(lia)) as (mc & ec & Hc & Hbc & Hrc).
  destruct (positive_finite_form p Hnp ltac:(lia)) as (mp & ep & Hp & Hbp & Hrp).
  rewrite Hrc, Hrp in *.
  destruct (SFsub_below mp ep mc ec Hbp Hbc Hcp) as (mz & ez & Hsub & Hzle).
  destruct (SFsub_positive_finite mp ep mc ec Hbp Hbc Hcp)
    as (mz' & ez' & Hsub' & Hez & Hzlo & Hzhi).
  rewrite Hsub in Hsub'. injection Hsub' as <- <-.
  assert (Hmargin : Prim2SF (p - c) = S754_finite false mz ez).
  { by rewrite FloatAxioms.sub_spec, Hp, Hc. }
  assert (Hbz : bounded prec emax mz ez = true).
  { pose proof (Prim2SF_valid (p - c)) as Hv. by rewrite Hmargin in Hv. }
  pose proof (close_difference mp ep mc ec Hbp Hbc Hcp) as Hclose.
  destruct (SFdiv_ge_one mp ep mz ez Hbp Hbz Hzle) as (mq & eq & Hdiv & Hmq & Heq & Hone).
  { change (2 ^ 55) with (2 * 2 ^ 54). lia. }
  assert (Hratio : Prim2SF (p / (p - c)) = S754_finite false mq eq).
  { by rewrite FloatAxioms.div_spec, Hp, Hmargin. }
  destruct (scaled_round_positive mq eq Hmq Heq) as [Hsmall _].
  exists (scaled_round mq eq 2). split; [|by apply scaled_round_ge_100].
  unfold toFixed. by rewrite Hratio, Hsmall.
Qed.

End RoasBound.

(** * Further instances on the sample data *)

Lemma lookup_after_snapshot_witness :
  (forall k body,
     (k, body) ∈ sample_snapshot ->
     find_product k (final (@onSnapshot sample_platform "u1" sample_snapshot sample_state))
       = Some (project_doc (k, body))) /\
  (forall k,
     k ∉ map fst sample_snapshot ->
     find_product k (final (@onSnapshot sample_platform "u1" sample_snapshot sample_state))
       = None).
Proof.
  apply (@lookup_after_snapshot sample_platform "u1" sample_snapshot sample_state).
  apply (bool_decide_unpack _). vm_compute. exact I.
Defined.

Lemma products_after_snapshot_witness :
  NoDup (map (fun p => prop p "id")
           (products (final (@onSnapshot sample_platform "u1" sample_snapshot sample_state)))).
Proof.
  apply (@products_after_snapshot sample_platform "u1" sample_snapshot sample_state).
  apply (bool_decide_unpack _). vm_compute. exact I.
Defined.

Lemma stale_selection_witness :
  selectedId (final (@onSnapshot sample_platform "u1" sample_snapshot sample_state))
    = Some "p1" /\
  selectedProduct (final (@onSnapshot sample_platform "u1" sample_snapshot sample_state))
    = None.
Proof.
  apply (@stale_selection sample_platform "u1" sample_snapshot sample_state "p1").
  - reflexivity.
  - apply (bool_decide_unpack _). vm_compute. exact I.
Defined.

Lemma snapshot_order_is_stable_witness :
  List.filter (fun a => (@sort_key sample_platform a =? 0)%float)
    (@project sample_platform tied_snapshot) =
  List.filter (fun a => (@sort_key sample_platform a =? 0)%float)
    (map project_doc tied_snapshot).
Proof.
  apply (@snapshot_order_is_stable sample_platform tied_snapshot 0%float).
  - repeat constructor; vm_compute; reflexivity.
  - reflexivity.
Defined.

Lemma failed_migration_keeps_cache_witness :
  localStorage (final (@onSnapshot sample_platform "u1" [] garbled_state))
    = localStorage garbled_state /\
  loading (final (@onSnapshot sample_platform "u1" [] garbled_state)) = false /\
  @nil (string * obj) = [] /\
  exists savedLocal,
    localStorage garbled_state !! LOCAL_STORAGE_KEY = Some savedLocal /\ savedLocal <> "".
Proof.
  apply (@failed_migration_keeps_cache sample_platform "u1" [] garbled_state).
  vm_compute. reflexivity.
Defined.

Lemma migration_stops_at_refused_record_witness :
  calls (@onSnapshot faulty_platform "u1" [] faulty_state)
    = migration_writes ["users/u1/products/a1"] [VObj {[ "id" := VStr "a1" ]}] /\
  threw (@onSnapshot faulty_platform "u1" [] faulty_state) = true.
Proof.
  apply (@migration_stops_at_refused_record faulty_platform "u1" faulty_state faulty_cache
           [VObj {[ "id" := VStr "a1" ]}] ["users/u1/products/a1"] (VObj ∅)
           [VObj {[ "id" := VStr "c3" ]}]).
  - vm_compute. reflexivity.
  - vm_compute. discriminate.
  - vm_compute. reflexivity.
  - repeat constructor; eexists; (repeat split; vm_compute; reflexivity).
  - right. exists VUndefined. split; [reflexivity | left; reflexivity].
Defined.


Lemma update_competitor_past_end_witness :
  exists newCompetitors,
    @handleUpdateCompetitor sample_platform "p1" 5 "brand" (VStr "acme") sample_state =
      fire (@handleUpdateProduct sample_platform "p1" "competitors" (VArr newCompetitors)
              sample_state) /\
    length newCompetitors = 6%nat /\
    (forall j, (j < 3)%nat ->
       newCompetitors !! j =
       [sample_competitor "x"; sample_competitor "y"; sample_competitor "z"] !! j) /\
    (forall j, (3 <= j < 5)%nat -> newCompetitors !! j = Some VUndefined) /\
    newCompetitors !! 5%nat = Some (VObj {[ "brand" := VStr "acme" ]}).
Proof.
  apply (@update_competitor_past_end sample_platform "p1" 5 "brand" (VStr "acme")
           sample_state "u1" widget
           [sample_competitor "x"; sample_competitor "y"; sample_competitor "z"]).
  - reflexivity.
  - vm_compute. reflexivity.
  - vm_compute. reflexivity.
  - simpl. lia.
Defined.

Lemma missing_lists_witness :
  (forall i field v,
     @handleUpdateCompetitor sample_platform "p3" i field v bare_state = throw bare_state []) /\
  (forall linkId,
     @handleDeleteOtherLink sample_platform "p3" linkId bare_state =
       fire (@handleUpdateProduct sample_platform "p3" "otherLinks" (VArr []) bare_state)).
Proof.
  destruct (@missing_lists sample_platform "p3" bare_state "u1" bare_product)
    as [Hcomp Hlinks].
  - reflexivity.
  - vm_compute. reflexivity.
  - split.
    + apply Hcomp. vm_compute. exact I.
    + apply Hlinks. vm_compute. reflexivity.
Defined.

Lemma unreadable_link_witness :
  (forall linkId field v,
     @handleUpdateOtherLink sample_platform "p4" linkId field v holed_state
       = throw holed_state []) /\
  (forall linkId,
     @handleDeleteOtherLink sample_platform "p4" linkId holed_state = throw holed_state []) /\
  (forall newId, exists newLinks,
     @handleAddOtherLink sample_platform "p4" newId holed_state =
       fire (@handleUpdateProduct sample_platform "p4" "otherLinks" (VArr newLinks)
               holed_state) /\
     length newLinks = 3%nat /\
     Exists (fun l => l = VNull \/ l = VUndefined) newLinks).
Proof.
  apply (@unreadable_link sample_platform "p4" holed_state "u1" holed_product
           [sample_link "l1"; VNull]).
  - reflexivity.
  - vm_compute. reflexivity.
  - vm_compute. reflexivity.
  - apply Exists_cons_tl, Exists_cons_hd. by left.
Defined.

Lemma add_then_delete_link_witness :
  exists newLinks added,
    @handleAddOtherLink sample_platform "p1" "l4" sample_state =
      fire (@handleUpdateProduct sample_platform "p1" "otherLinks" (VArr newLinks)
              sample_state) /\
    newLinks = ([sample_link "l1"; sample_link "l2"; sample_link "l3"] ++ [VObj added])%list /\
    added !! "id" = Some (VStr "l4") /\
    added !! "title" = Some (VStr "") /\
    added !! "url" = Some (VStr "") /\
    forall st' uid' product',
      user st' = Some uid' ->
      find_product "p1" st' = Some product' ->
      prop product' "otherLinks" = VArr newLinks ->
      @handleDeleteOtherLink sample_platform "p1" "l4" st' =
        fire (@handleUpdateProduct sample_platform "p1" "otherLinks"
                (VArr [sample_link "l1"; sample_link "l2"; sample_link "l3"]) st') /\
      forall field v,
        @handleUpdateOtherLink sample_platform "p1" "l4" field v st' =
          fire (@handleUpdateProduct sample_platform "p1" "otherLinks"
                  (VArr ([sample_link "l1"; sample_link "l2"; sample_link "l3"] ++
                         [VObj (<[field := v]> added)])) st').
Proof.
  apply (@add_then_delete_link sample_platform "p1" "l4" sample_state "u1" widget
           [sample_link "l1"; sample_link "l2"; sample_link "l3"]).
  - reflexivity.
  - vm_compute. reflexivity.
  - vm_compute. reflexivity.
  - repeat constructor; eexists; (split; [vm_compute; reflexivity | discriminate]).
Defined.

Lemma update_link_frame_witness :
  exists newLinks,
    @handleUpdateOtherLink sample_platform "p1" "l2" "title" (VStr "shop") sample_state =
      fire (@handleUpdateProduct sample_platform "p1" "otherLinks" (VArr newLinks)
              sample_state) /\
    length newLinks = 3%nat /\
    forall j l, [sample_link "l1"; sample_link "l2"; sample_link "l3"] !! j = Some l ->
      (get l "id" = Some (VStr "l2") ->
       exists c, newLinks !! j = Some (VObj c) /\ c !! "title" = Some (VStr "shop") /\
                 forall g, g <> "title" -> c !! g = object_spread l !! g) /\
      (get l "id" <> Some (VStr "l2") -> newLinks !! j = Some l).
Proof.
  apply (@update_link_frame sample_platform "p1" "l2" "title" (VStr "shop")
           sample_state "u1" widget [sample_link "l1"; sample_link "l2"; sample_link "l3"]).
  - reflexivity.
  - vm_compute. reflexivity.
  - vm_compute. reflexivity.
  - repeat constructor; vm_compute; eauto.
Defined.

Lemma handlers_frame_witness :
  @invoke sample_platform (DeleteProduct "p1" true) signed_out_state
    = done signed_out_state [].
Proof.
  pose proof (@handlers_frame sample_platform (DeleteProduct "p1" true) signed_out_state)
    as Hframe.
  cbv zeta in Hframe. destruct Hframe as (_ & _ & _ & _ & _ & _ & _ & Hout & _).
  apply Hout. reflexivity.
Defined.


Lemma filter_fails_iff_witness :
  filteredProducts
    (setSearchQuery "x" (final (@onSnapshot sample_platform "u1" sample_snapshot sample_state)))
  = None.
Proof.
  apply (proj2 (@filter_fails_iff sample_platform) "u1" sample_snapshot sample_state
           "a" {[ "createdAt" := VNum 100%float ]} "x").
  - apply list_elem_of_here.
  - vm_compute. reflexivity.
Defined.

Lemma formatCurrency_dash_iff_witness :
  @Intl_USD_format sample_platform (VStr "12.5") <> "-".
Proof.
  apply (proj2 (@formatCurrency_dash_iff sample_platform (VStr "12.5"))). reflexivity.
Defined.

Lemma margin_cell_dash_witness : @marginCell sample_platform at_cost_product = "-".
Proof.
  pose proof (@margin_cell_dash sample_platform at_cost_product) as Hm.
  cbv zeta in Hm. apply (proj2 Hm); vm_compute; reflexivity.
Defined.


Lemma created_product_is_selected_witness :
  let r := @handleAddProduct sample_platform "n1" 1000%float true sample_state in
  calls r = [SetDoc "users/u1/products/n1" (VObj (new_product "n1" 1000%float)) false] /\
  (forall remote,
     (@settle sample_platform r [true] remote).2 !! "users/u1/products/n1"
       = Some (VObj (new_product "n1" 1000%float))) /\
  (forall uid' snapshot,
     NoDup (map fst snapshot) ->
     ("n1", new_product "n1" 1000%float) ∈ snapshot ->
     selectedProduct (final (@onSnapshot sample_platform uid' snapshot (final r))) =
       Some (new_product "n1" 1000%float)) /\
  calls (@handleAddProduct sample_platform "n1" 1000%float false sample_state) = calls r /\
  final (@handleAddProduct sample_platform "n1" 1000%float false sample_state) = sample_state.
Proof.
  apply (@created_product_is_selected sample_platform "n1" 1000%float sample_state "u1"
           "users/u1/products/n1").
  - reflexivity.
  - vm_compute. reflexivity.
  - reflexivity.
Defined.

Lemma delete_closes_panel_witness :
  let r := @handleDeleteProduct sample_platform "p1" true sample_state in
  calls r = [DeleteDoc "users/u1/products/p1"] /\
  selectedProduct (final r) = None /\
  find_product "p1" (final r) = find_product "p1" sample_state /\
  (forall remote, (@settle sample_platform r [true] remote).2 !! "users/u1/products/p1" = None) /\
  (forall uid' snapshot,
     "p1" ∉ map fst snapshot ->
     find_product "p1" (final (@onSnapshot sample_platform uid' snapshot (final r))) = None).
Proof.
  apply (@delete_closes_panel sample_platform "p1" sample_state "u1" "users/u1/products/p1").
  - reflexivity.
  - vm_compute. reflexivity.
  - repeat constructor; eexists; vm_compute; reflexivity.
Defined.

Lemma roas_at_least_one_witness :
  exists n,
    @calculateRoas sample_platform (VStr "20") (VStr "10") = RoasFixed (fixed_digits n 2) /\
    100 <= n.
Proof.
  apply (@roas_at_least_one sample_platform (VStr "20") (VStr "10")); vm_compute; reflexivity.
Defined.
